(** * SoothSayer core: the on-chain settler, the market creator,
      the question-metadata parser and the commit scoring rule.

    Shallow embedding of
      - the settler script (class [Settler]: [loadMarkets], [saveMarkets],
        [getMarketStatus], [settle], [finalize]),
      - [adjudicator/scripts/create-market.mjs] (class [MarketCreator]:
        [loadMarkets], [loadMappings], [saveMappings], [create]),
      - [parse_question] and [_save_tag] of [protocol/AAP_SPEC.md],
      - the scoring formula of the commit format document.

    Conventions.  A script run is a function from the world before the run
    to the events of the run (console lines and transactions sent, in
    program order) and the world after it.  The world is the two JSON
    files under [data/] and the external environment (clock and RPC node),
    which is reached only through the interface [External].

    Assumptions of the model.  A file that parses has the shape of its
    schema; [writeFileSync] succeeds; the clock is read off the environment
    and moves only with it; the clock reading and the dates of the registry
    are integers a double holds exactly, as the time values of a JS [Date]
    are; the outcome argument of [settle] is an integer
    ([parseInt] did not return [NaN]); a market id is no name of a member
    of [Object.prototype], so that [obj[id]] is a lookup in the JSON object.
    The [list] and [status] commands only print and are left out. *)

From Stdlib Require Import ZArith QArith String Ascii List Lia.
From stdpp Require Import base strings gmap list.

Close Scope Q_scope.
Local Open Scope string_scope.
Local Open Scope list_scope.

(** ** Plain data *)

Definition address := string.

(** [String.prototype.toLowerCase] on the ASCII letters (addresses are
    hexadecimal text; other bytes are left as they are). *)
Definition lower_ascii (c : ascii) : ascii :=
  let n := nat_of_ascii c in
  if (65 <=? n)%nat && (n <=? 90)%nat then ascii_of_nat (n + 32) else c.

Fixpoint toLowerCase (s : string) : string :=
  match s with
  | EmptyString => EmptyString
  | String c r => String (lower_ascii c) (toLowerCase r)
  end.

(** Truthiness of a JS string: every string but the empty one. *)
Definition truthy (s : string) : bool :=
  match s with EmptyString => false | _ => true end.

(** ** Constants of the two scripts *)

Definition LaunchpadEngine : address := "0x744724aa5b389644f31dfcfbb67786b581602084".
Definition MockUSDC : address := "0x3b2f5a6e16cb5d5cf277f8718a9add3af0b1222a".
Definition ProtocolConfig : address := "0x6784f9b2e3a629c94cc05b441b6fdec4a6890830".

Definition MARKET_STATES : list string :=
  ["PENDING"; "LIVE"; "SETTLING"; "SETTLED"; "FINALIZED"; "CANCELLED"].
Definition OUTCOMES : list string := ["NO"; "YES"; "INVALID"].

(** [arr[i]] for a number [i]: [None] is JS [undefined]. *)
Definition js_index (arr : list string) (i : Z) : option string :=
  if (i <? 0)%Z then None else arr !! Z.to_nat i.

(** [MARKET_STATES[Number(state)] || 'UNKNOWN'] *)
Definition stateStr (state : Z) : string :=
  match js_index MARKET_STATES state with
  | Some s => s
  | None => "UNKNOWN"
  end.

(** [ethers.MaxUint256] *)
Definition MaxUint256 : Z := (2 ^ 256 - 1)%Z.

(** ** Local registry records (data/markets.json, data/market-mappings.json) *)

Inductive Position := PosYES | PosNO.

Record Commitment := {
  c_agent : string;
  c_position : Position;
  c_confidence : Z;
}.

(** A market object of [markets.json]; a field that may be absent
    ([undefined]) is an [option].  [m_deadline] is the field read through
    [new Date(market.deadline).getTime()]: the milliseconds, or [None] for
    [NaN] (absent or unparseable date). *)
Record Market := {
  m_id : string;
  m_question : string;
  m_status : string;
  m_deadline : option Z;
  m_rule_source : option string;
  m_commitments : list Commitment;
  m_moltbook_post_id : option string;
  m_market_address : option address;
  m_settled_tx : option string;
  m_finalized_tx : option string;
}.

Record Db := {
  db_version : option Z;
  db_markets : gmap string Market;
}.

Record Mapping := {
  mp_moltbook_id : string;
  mp_moltbook_post_id : option string;
  mp_chain : string;
  mp_chain_id : Z;
  mp_market_address : address;
  mp_question : string;
  mp_status : string;
  mp_created_at : Z;
}.

Record Mappings := {
  mappings : gmap string Mapping;
  onchain_only : gmap string string;
}.

(** What [readFileSync] followed by [JSON.parse] meets: no file, a file
    that does not parse, or a document.  [writeFileSync] of
    [JSON.stringify data] leaves [Parsed data]. *)
Inductive File (A : Type) :=
| Missing
| Unparseable (raw : string)
| Parsed (a : A).
Arguments Missing {A}.
Arguments Unparseable {A} raw.
Arguments Parsed {A} a.

(** ** Transactions, console lines, events *)

Record CreateArgs := {
  ca_question : string;
  ca_startTime : Z;
  ca_deadline : Z;
  ca_adjudicator : address;
  ca_guardian : address;
  ca_initialLiquidity : Z;
  ca_agentId : Z;
  ca_minValidators : Z;
}.

(** A state-changing call, with the contract it goes to. *)
Inductive Tx :=
| TxSettle (market : address) (outcome tStar : Z)
| TxFinalize (market : address)
| TxApprove (token spender : address) (amount : Z)
| TxCreateMarket (launchpad : address) (args : CreateArgs).

(** *** Arguments that do not encode

    Before a call is submitted ethers encodes its arguments for the types
    of the ABI, in order, and throws at the first that does not fit: a JS
    number has to be an integer within the safe range, and every integer
    has to lie within its [uintN].  The argument names are those of the
    ABI strings of the scripts. *)
Inductive BadArgument :=
| NotInteger (argument : string)
| OutOfRange (argument : string) (value : Z).

(** [Number.MAX_SAFE_INTEGER] *)
Definition MAX_SAFE_INTEGER : Z := 9007199254740991.

(** A BigInt passed for a [uintN]. *)
Definition bad_bigint (argument : string) (bits value : Z) : option BadArgument :=
  if ((0 <=? value) && (value <? 2 ^ bits))%Z then None
  else Some (OutOfRange argument value).

(** A JS number (an integer) passed for a [uintN]. *)
Definition bad_number (argument : string) (bits value : Z) : option BadArgument :=
  if ((- MAX_SAFE_INTEGER <=? value) && (value <=? MAX_SAFE_INTEGER))%Z
  then bad_bigint argument bits value
  else Some (OutOfRange argument value).

(** The first check that fails. *)
Definition first_bad (checks : list (option BadArgument)) : option BadArgument :=
  foldr (λ check rest, match check with Some bad => Some bad | None => rest end)
        None checks.

(** The argument at which the encoding of a call throws, if it does.
    [outcomeInt], [startTime], [deadline] and the two zeros are JS numbers;
    [tStar], [liquidity] and [ethers.MaxUint256] are BigInts. *)
Definition unencodable (t : Tx) : option BadArgument :=
  match t with
  | TxSettle _ outcome tStar =>
    first_bad [bad_number "outcome" 8 outcome; bad_bigint "tStar" 64 tStar]
  | TxFinalize _ => None
  | TxApprove _ _ amount => bad_bigint "amount" 256 amount
  | TxCreateMarket _ args =>
    first_bad [bad_number "startTime" 64 (ca_startTime args);
               bad_number "deadline" 64 (ca_deadline args);
               bad_bigint "initialLiquidity" 256 (ca_initialLiquidity args);
               bad_number "adjudicatorAgentId" 256 (ca_agentId args);
               bad_number "adjudicatorMinValidators" 256 (ca_minValidators args)]
  end.

(** The [console.log] / [console.error] lines, by their template. *)
Inductive Msg :=
| LogSettling (market : address)
| LogOutcome (outcomeInt : Z) (label : option string)
| ErrStatus (error : string)
| ErrNotOurs (adjudicator : option address)
| WarnAlreadySettled (outcome : option string)
| LogCallingSettle (outcomeInt tStar : Z)
| LogTx (hash : string)
| LogSettled (block : Z)
| ErrTxFailed (message : string)
| LogFinalizing (market : address)
| ErrNotSettled
| WarnAlreadyFinalized
| LogCallingFinalize
| LogFinalized (block : Z)
| ErrMarketNotFound (marketId : string)
| LogAlreadySynced (market : address)
| LogCreating (marketId : string)
| LogQuestion (question : string)
| ErrDeadlinePassed (deadline : Z)
| LogBalance (balance : Z)
| LogDeposit (deposit : Z)
| ErrInsufficient (deposit balance : Z)
| LogApproving
| LogApproved
| LogCreatingMarket
| LogReceipt (hash : string)
| ErrNoMarketCreated
| LogMarketCreated (market : address)
| LogMappingSaved
| Uncaught (message : string).

Inductive Event :=
| Send (from : address) (t : Tx)
| Out (m : Msg).

(** The transactions of a run, in order. *)
Fixpoint sent (evs : list Event) : list Tx :=
  match evs with
  | [] => []
  | Send _ t :: r => t :: sent r
  | Out _ :: r => sent r
  end.

(** ** The external environment *)

(** The six view calls that [getMarketStatus] awaits together. *)
Record MarketView := {
  v_isSettled : bool;
  v_isFinalized : bool;
  v_adjudicator : address;
  v_question : string;
  v_deadline : Z;
  v_state : Z;
}.

(** What [tx.wait()] returns, as far as the scripts read it:
    [r_created] is the market address of the [MarketCreated] log, if the
    receipt has one. *)
Record Receipt := {
  r_hash : string;
  r_blockNumber : Z;
  r_created : option address;
}.

(** A state-changing call whose arguments encode either throws at
    submission, or is submitted (it has a hash) and throws while waited
    for, or is confirmed.  Every case leaves some environment behind. *)
Inductive TxResult (Env : Type) :=
| SubmitFailed (message : string) (e' : Env)
| WaitFailed (hash : string) (message : string) (e' : Env)
| Confirmed (r : Receipt) (e' : Env).
Arguments SubmitFailed {Env} message e'.
Arguments WaitFailed {Env} hash message e'.
Arguments Confirmed {Env} r e'.

(** The message a send threw with, if it threw. *)
Definition failure {Env} (r : TxResult Env) : option string :=
  match r with
  | SubmitFailed msg _ | WaitFailed _ msg _ => Some msg
  | Confirmed _ _ => None
  end.

(** Whether a run printed the [TX failed] line of a [catch]. *)
Definition is_tx_failure (ev : Event) : bool :=
  match ev with Out (ErrTxFailed _) => true | _ => false end.
Definition tx_failed (evs : list Event) : bool := existsb is_tx_failure evs.

(** Whether a [create] run reached its last line. *)
Definition is_mapping_saved (ev : Event) : bool :=
  match ev with Out LogMappingSaved => true | _ => false end.
Definition mapping_saved (evs : list Event) : bool := existsb is_mapping_saved evs.

(** The clock, and [ethers] with the RPC node behind it: reads return a
    value or throw (the [inl] carries [e.message]); sends return a
    [TxResult]; [encoding_message] is the [e.message] of the exception that
    the library throws for an argument that does not encode. *)
Class External (Env : Type) := {
  env_now : Env -> Z;
  call_views : Env -> address -> string + MarketView;
  call_outcome : Env -> address -> string + Z;
  call_balanceOf : Env -> address -> address -> string + Z;
  send : Env -> address -> Tx -> TxResult Env;
  encoding_message : BadArgument -> string;
}.

Record World (Env : Type) := {
  env : Env;
  markets_file : File Db;
  mappings_file : File Mappings;
}.
Arguments env {Env} w.
Arguments markets_file {Env} w.
Arguments mappings_file {Env} w.

(** ** Loaders and savers *)

(** [loadMarkets] (both scripts): any exception of the read or of the
    parse gives [{ markets: {} }]. *)
Definition no_markets : Db := {| db_version := None; db_markets := ∅ |}.

Definition loadMarkets (f : File Db) : Db :=
  match f with
  | Parsed db => db
  | _ => no_markets
  end.

(** [MarketCreator.loadMappings] *)
Definition no_mappings : Mappings := {| mappings := ∅; onchain_only := ∅ |}.

Definition loadMappings (f : File Mappings) : Mappings :=
  match f with
  | Parsed mp => mp
  | _ => no_mappings
  end.

Definition saveMarkets {Env} (w : World Env) (data : Db) : World Env :=
  {| env := env w; markets_file := Parsed data; mappings_file := mappings_file w |}.

Definition saveMappings {Env} (w : World Env) (data : Mappings) : World Env :=
  {| env := env w; markets_file := markets_file w; mappings_file := Parsed data |}.

Definition with_env {Env} (w : World Env) (e : Env) : World Env :=
  {| env := e; markets_file := markets_file w; mappings_file := mappings_file w |}.

(** ** The settler *)

(** The object [getMarketStatus] returns: [{ address, error }] from the
    [catch], or the full status. *)
Record StatusInfo := {
  st_address : address;
  st_isSettled : bool;
  st_isFinalized : bool;
  st_adjudicator : address;
  st_question : string;
  st_deadline : Z;
  st_state : Z;
  st_stateStr : string;
  st_outcome : option string;
  st_isOurs : bool;
}.

Inductive Status :=
| StatusError (addr : address) (error : string)
| StatusOk (s : StatusInfo).

(** Property reads on a status object; a property the object lacks is
    [undefined], which is falsy. *)
Definition has_error (st : Status) : bool :=
  match st with StatusError _ e => truthy e | StatusOk _ => false end.
Definition isOurs (st : Status) : bool :=
  match st with StatusError _ _ => false | StatusOk s => st_isOurs s end.
Definition isSettled (st : Status) : bool :=
  match st with StatusError _ _ => false | StatusOk s => st_isSettled s end.
Definition isFinalized (st : Status) : bool :=
  match st with StatusError _ _ => false | StatusOk s => st_isFinalized s end.
Definition adjudicator (st : Status) : option address :=
  match st with StatusError _ _ => None | StatusOk s => Some (st_adjudicator s) end.
Definition outcome (st : Status) : option string :=
  match st with StatusError _ _ => None | StatusOk s => st_outcome s end.
Definition error (st : Status) : string :=
  match st with StatusError _ e => e | StatusOk _ => "" end.

(** The largest time value of a JS [Date], in milliseconds; beyond it
    [toISOString] throws a [RangeError]. *)
Definition MAX_TIME_VALUE : Z := 8640000000000000.

(** [m.status = ...; m.<field> = tx.hash] on the objects whose
    [market_address] is strictly equal to the argument. *)
Definition mark_settling (marketAddress : address) (hash : string) (m : Market) : Market :=
  if decide (m_market_address m = Some marketAddress) then
    {| m_id := m_id m; m_question := m_question m;
       m_status := "settling";
       m_deadline := m_deadline m; m_rule_source := m_rule_source m;
       m_commitments := m_commitments m;
       m_moltbook_post_id := m_moltbook_post_id m;
       m_market_address := m_market_address m;
       m_settled_tx := Some hash;
       m_finalized_tx := m_finalized_tx m |}
  else m.

Definition mark_finalized (marketAddress : address) (hash : string) (m : Market) : Market :=
  if decide (m_market_address m = Some marketAddress) then
    {| m_id := m_id m; m_question := m_question m;
       m_status := "finalized";
       m_deadline := m_deadline m; m_rule_source := m_rule_source m;
       m_commitments := m_commitments m;
       m_moltbook_post_id := m_moltbook_post_id m;
       m_market_address := m_market_address m;
       m_settled_tx := m_settled_tx m;
       m_finalized_tx := Some hash |}
  else m.

(** The loop [for (const m of Object.values(db.markets))] with its body. *)
Definition update_markets (f : Market -> Market) (db : Db) : Db :=
  {| db_version := db_version db; db_markets := f <$> db_markets db |}.

Section Scripts.
Context {Env : Type} `{External Env}.
(** [this.wallet.address], from the configured private key. *)
Variable wallet : address.

Definition Run : Type := list Event * World Env.

Definition getMarketStatus (e : Env) (marketAddress : address) : Status :=
  match call_views e marketAddress with
  | inl msg => StatusError marketAddress msg
  | inr v =>
    let read_outcome : string + option Z :=
      if v_isSettled v then
        match call_outcome e marketAddress with
        | inl msg => inl msg
        | inr o => inr (Some o)
        end
      else inr None in
    match read_outcome with
    | inl msg => StatusError marketAddress msg
    | inr o =>
      if (MAX_TIME_VALUE <? Z.abs (v_deadline v * 1000))%Z
      then StatusError marketAddress "Invalid time value"
      else StatusOk
        {| st_address := marketAddress;
           st_isSettled := v_isSettled v;
           st_isFinalized := v_isFinalized v;
           st_adjudicator := v_adjudicator v;
           st_question := v_question v;
           st_deadline := v_deadline v;
           st_state := v_state v;
           st_stateStr := stateStr (v_state v);
           st_outcome := o ≫= js_index OUTCOMES;
           st_isOurs :=
             bool_decide (toLowerCase (v_adjudicator v) = toLowerCase wallet) |}
    end
  end.

(** [Settler.settle(marketAddress, outcomeInt)] *)
Definition settle (w : World Env) (marketAddress : address) (outcomeInt : Z) : Run :=
  let intro := [Out (LogSettling marketAddress);
                Out (LogOutcome outcomeInt (js_index OUTCOMES outcomeInt))] in
  let status := getMarketStatus (env w) marketAddress in
  if has_error status then
    (intro ++ [Out (ErrStatus (error status))], w)
  else if negb (isOurs status) then
    (intro ++ [Out (ErrNotOurs (adjudicator status))], w)
  else if isSettled status then
    (intro ++ [Out (WarnAlreadySettled (outcome status))], w)
  else
    let tStar := (env_now (env w) / 1000)%Z in
    let tx := TxSettle marketAddress outcomeInt tStar in
    let calling := intro ++ [Out (LogCallingSettle outcomeInt tStar)] in
    match unencodable tx with
    | Some bad =>
      (* [market.settle] throws inside the [try], before anything is sent *)
      (calling ++ [Out (ErrTxFailed (encoding_message bad))], w)
    | None =>
      let call := calling ++ [Send wallet tx] in
      match send (env w) wallet tx with
      | SubmitFailed msg e' =>
        (call ++ [Out (ErrTxFailed msg)], with_env w e')
      | WaitFailed hash msg e' =>
        (call ++ [Out (LogTx hash); Out (ErrTxFailed msg)], with_env w e')
      | Confirmed r e' =>
        let w' := with_env w e' in
        let db := loadMarkets (markets_file w') in
        let db' := update_markets (mark_settling marketAddress (r_hash r)) db in
        (call ++ [Out (LogTx (r_hash r)); Out (LogSettled (r_blockNumber r))],
         saveMarkets w' db')
      end
    end.

(** [Settler.finalize(marketAddress)]; [finalize()] has no argument to
    encode. *)
Definition finalize (w : World Env) (marketAddress : address) : Run :=
  let intro := [Out (LogFinalizing marketAddress)] in
  let status := getMarketStatus (env w) marketAddress in
  if has_error status then
    (intro ++ [Out (ErrStatus (error status))], w)
  else if negb (isSettled status) then
    (intro ++ [Out ErrNotSettled], w)
  else if isFinalized status then
    (intro ++ [Out WarnAlreadyFinalized], w)
  else
    let tx := TxFinalize marketAddress in
    let call := intro ++ [Out LogCallingFinalize; Send wallet tx] in
    match send (env w) wallet tx with
    | SubmitFailed msg e' =>
      (call ++ [Out (ErrTxFailed msg)], with_env w e')
    | WaitFailed hash msg e' =>
      (call ++ [Out (LogTx hash); Out (ErrTxFailed msg)], with_env w e')
    | Confirmed r e' =>
      let w' := with_env w e' in
      let db := loadMarkets (markets_file w') in
      let db' := update_markets (mark_finalized marketAddress (r_hash r)) db in
      (call ++ [Out (LogTx (r_hash r)); Out (LogFinalized (r_blockNumber r))],
       saveMarkets w' db')
    end.

(** *** The market creator *)

(** [ethers.parseUnits('1000', 18)] *)
Definition liquidity : Z := (1000 * 10 ^ 18)%Z.
(** [liquidity * 693n / 1000n], BigInt division *)
Definition estimatedDeposit : Z := (liquidity * 693 ÷ 1000)%Z.
(** [estimatedDeposit / BigInt(1e12)] *)
Definition depositUsdc : Z := (estimatedDeposit ÷ 10 ^ 12)%Z.

(** [Math.floor(new Date(deadlineStr).getTime() / 1000)]; [None] is [NaN]. *)
Definition deadline_seconds (market : Market) : option Z :=
  (λ ms, ms / 1000)%Z <$> m_deadline market.

(** [deadline <= now] on JS numbers: false when [deadline] is [NaN]. *)
Definition deadline_passed (deadline : option Z) (now : Z) : bool :=
  match deadline with
  | Some d => (d <=? now)%Z
  | None => false
  end.

Definition new_mapping (marketId : string) (market : Market)
    (marketAddress : address) (question : string) (created_at : Z) : Mapping :=
  {| mp_moltbook_id := marketId;
     mp_moltbook_post_id := m_moltbook_post_id market;
     mp_chain := "monad-testnet";
     mp_chain_id := 10143;
     mp_market_address := marketAddress;
     mp_question := question;
     mp_status := "live";
     mp_created_at := created_at |}.

(** [mappings.mappings[marketId] = {...}] *)
Definition set_mapping (marketId : string) (mp : Mapping) (data : Mappings) : Mappings :=
  {| mappings := <[marketId := mp]> (mappings data);
     onchain_only := onchain_only data |}.

(** [MarketCreator.create(marketId)].  An exception that leaves [create]
    reaches [main().catch(console.error)]: the line [Uncaught].  The
    arguments of [approve] are constants that encode. *)
Definition create (w : World Env) (marketId : string) : Run :=
  let db := loadMarkets (markets_file w) in
  match db_markets db !! marketId with
  | None => ([Out (ErrMarketNotFound marketId)], w)
  | Some market =>
    let data := loadMappings (mappings_file w) in
    match mappings data !! marketId with
    | Some mp => ([Out (LogAlreadySynced (mp_market_address mp))], w)
    | None =>
      let intro := [Out (LogCreating marketId);
                  Out (LogQuestion (m_question market))] in
      let deadline := deadline_seconds market in
      let now := (env_now (env w) / 1000)%Z in
      if deadline_passed deadline now then
        (intro ++ [Out (ErrDeadlinePassed (default 0%Z deadline))], w)
      else
        let question := "@SoothSayer " +:+ m_question market in
        match call_balanceOf (env w) MockUSDC wallet with
        | inl msg => (intro ++ [Out (Uncaught msg)], w)
        | inr balance =>
          let checked := intro ++ [Out (LogBalance balance);
                                   Out (LogDeposit depositUsdc)] in
          if (balance <? depositUsdc)%Z then
            (checked ++ [Out (ErrInsufficient depositUsdc balance)], w)
          else
            let approveTx := TxApprove MockUSDC LaunchpadEngine MaxUint256 in
            let approving := checked ++ [Out LogApproving; Send wallet approveTx] in
            match send (env w) wallet approveTx with
            | SubmitFailed msg e1 | WaitFailed _ msg e1 =>
              (approving ++ [Out (Uncaught msg)], with_env w e1)
            | Confirmed _ e1 =>
              let approved := approving ++ [Out LogApproved; Out LogCreatingMarket] in
              match deadline with
              | None =>
                (* [createMarket] throws while encoding: at [startTime] if
                   that does not fit, else at the [NaN] deadline *)
                let bad := default (NotInteger "deadline")
                             (bad_number "startTime" 64 (now + 60)) in
                (approved ++ [Out (Uncaught (encoding_message bad))],
                 with_env w e1)
              | Some d =>
                let args :=
                  {| ca_question := question;
                     ca_startTime := (now + 60)%Z;
                     ca_deadline := d;
                     ca_adjudicator := wallet;
                     ca_guardian := ProtocolConfig;
                     ca_initialLiquidity := liquidity;
                     ca_agentId := 0;
                     ca_minValidators := 0 |} in
                let createTx := TxCreateMarket LaunchpadEngine args in
                match unencodable createTx with
                | Some bad =>
                  (approved ++ [Out (Uncaught (encoding_message bad))],
                   with_env w e1)
                | None =>
                  let creating := approved ++ [Send wallet createTx] in
                  match send e1 wallet createTx with
                  | SubmitFailed msg e2 | WaitFailed _ msg e2 =>
                    (creating ++ [Out (Uncaught msg)], with_env w e2)
                  | Confirmed r e2 =>
                    let mined := creating ++ [Out (LogReceipt (r_hash r))] in
                    match r_created r with
                    | None => (mined ++ [Out ErrNoMarketCreated], with_env w e2)
                    | Some marketAddress =>
                      let mp := new_mapping marketId market marketAddress
                                  question (env_now e2) in
                      (mined ++ [Out (LogMarketCreated marketAddress);
                                 Out LogMappingSaved],
                       saveMappings (with_env w e2) (set_mapping marketId mp data))
                    end
                  end
                end
              end
            end
        end
    end
  end.

End Scripts.

(** ** How runs end *)

Section RunEnds.
Context {Env : Type} `{External Env}.
Variable wallet : address.

(** The four ways a [settle] run ends: at a guard, with a failed
    transaction, with a confirmed one, or at an argument that does not
    encode. *)
Inductive settle_end (w : World Env) (a : address) (o : Z) : list Event * World Env → Prop :=
| settle_stopped evs :
    sent evs = [] →
    tx_failed evs = false →
    (has_error (getMarketStatus wallet (env w) a) = true
     ∨ isOurs (getMarketStatus wallet (env w) a) = false
     ∨ isSettled (getMarketStatus wallet (env w) a) = true) →
    settle_end w a o (evs, w)
| settle_failed evs msg e' :
    has_error (getMarketStatus wallet (env w) a) = false →
    isOurs (getMarketStatus wallet (env w) a) = true →
    isSettled (getMarketStatus wallet (env w) a) = false →
    sent evs = [TxSettle a o (env_now (env w) / 1000)%Z] →
    failure (send (env w) wallet (TxSettle a o (env_now (env w) / 1000)%Z)) = Some msg →
    last evs = Some (Out (ErrTxFailed msg)) →
    tx_failed evs = true →
    unencodable (TxSettle a o (env_now (env w) / 1000)%Z) = None →
    settle_end w a o (evs, with_env w e')
| settle_done evs r e' :
    has_error (getMarketStatus wallet (env w) a) = false →
    isOurs (getMarketStatus wallet (env w) a) = true →
    isSettled (getMarketStatus wallet (env w) a) = false →
    sent evs = [TxSettle a o (env_now (env w) / 1000)%Z] →
    send (env w) wallet (TxSettle a o (env_now (env w) / 1000)%Z) = Confirmed r e' →
    tx_failed evs = false →
    unencodable (TxSettle a o (env_now (env w) / 1000)%Z) = None →
    settle_end w a o
      (evs, saveMarkets (with_env w e')
              (update_markets (mark_settling a (r_hash r))
                 (loadMarkets (markets_file w))))
| settle_unencodable evs bad :
    has_error (getMarketStatus wallet (env w) a) = false →
    isOurs (getMarketStatus wallet (env w) a) = true →
    isSettled (getMarketStatus wallet (env w) a) = false →
    unencodable (TxSettle a o (env_now (env w) / 1000)%Z) = Some bad →
    sent evs = [] →
    last evs = Some (Out (ErrTxFailed (encoding_message bad))) →
    tx_failed evs = true →
    settle_end w a o (evs, w).

(** The same for [finalize]. *)
Inductive finalize_end (w : World Env) (a : address) : list Event * World Env → Prop :=
| finalize_stopped evs :
    sent evs = [] →
    tx_failed evs = false →
    (has_error (getMarketStatus wallet (env w) a) = true
     ∨ isSettled (getMarketStatus wallet (env w) a) = false
     ∨ isFinalized (getMarketStatus wallet (env w) a) = true) →
    finalize_end w a (evs, w)
| finalize_failed evs msg e' :
    has_error (getMarketStatus wallet (env w) a) = false →
    isSettled (getMarketStatus wallet (env w) a) = true →
    isFinalized (getMarketStatus wallet (env w) a) = false →
    sent evs = [TxFinalize a] →
    failure (send (env w) wallet (TxFinalize a)) = Some msg →
    last evs = Some (Out (ErrTxFailed msg)) →
    tx_failed evs = true →
    finalize_end w a (evs, with_env w e')
| finalize_done evs r e' :
    has_error (getMarketStatus wallet (env w) a) = false →
    isSettled (getMarketStatus wallet (env w) a) = true →
    isFinalized (getMarketStatus wallet (env w) a) = false →
    sent evs = [TxFinalize a] →
    send (env w) wallet (TxFinalize a) = Confirmed r e' →
    tx_failed evs = false →
    finalize_end w a
      (evs, saveMarkets (with_env w e')
              (update_markets (mark_finalized a (r_hash r))
                 (loadMarkets (markets_file w)))).

(** The three ways a [create] run ends: before any transaction, after a
    transaction without a mapping to save, or with the mapping saved. *)
Inductive create_end (w : World Env) (marketId : string) : list Event * World Env → Prop :=
| create_refused evs :
    sent evs = [] → mapping_saved evs = false →
    create_end w marketId (evs, w)
| create_aborted evs market e' :
    db_markets (loadMarkets (markets_file w)) !! marketId = Some market →
    mappings (loadMappings (mappings_file w)) !! marketId = None →
    mapping_saved evs = false →
    create_end w marketId (evs, with_env w e')
| create_saved evs market mp e' :
    db_markets (loadMarkets (markets_file w)) !! marketId = Some market →
    mappings (loadMappings (mappings_file w)) !! marketId = None →
    mapping_saved evs = true →
    create_end w marketId
      (evs, saveMappings (with_env w e')
              (set_mapping marketId mp (loadMappings (mappings_file w)))).

End RunEnds.

(** [main] of the settler, for its two state-changing commands. *)
Inductive Command :=
| CmdSettle (marketAddress : address) (outcomeInt : Z)
| CmdFinalize (marketAddress : address).

Definition settler_main {Env} `{External Env} (wallet : address)
    (w : World Env) (cmd : Command) : list Event * World Env :=
  match cmd with
  | CmdSettle a o => settle wallet w a o
  | CmdFinalize a => finalize wallet w a
  end.

(** The on-chain fact a command is there to bring about, as a status
    reports it. *)
Definition reached (cmd : Command) (st : Status) : bool :=
  match cmd with
  | CmdSettle _ _ => isSettled st
  | CmdFinalize _ => isFinalized st
  end.
Definition target (cmd : Command) : address :=
  match cmd with CmdSettle a _ | CmdFinalize a => a end.

(** What the scripts rely on from the market contract: once a settle
    (finalize) transaction is confirmed, the views of that market report
    it settled (finalized). *)
Class Irrevocable (Env : Type) `{External Env} : Prop := {
  settle_confirmed : ∀ e from a o t r e' v,
    send e from (TxSettle a o t) = Confirmed r e' →
    call_views e' a = inr v → v_isSettled v = true;
  finalize_confirmed : ∀ e from a r e' v,
    send e from (TxFinalize a) = Confirmed r e' →
    call_views e' a = inr v → v_isFinalized v = true;
}.

(** ** A simulated node

    A small deterministic environment for running the scripts on concrete
    worlds: a clock, the markets deployed, the USDC balances, and a switch
    that makes every transaction revert once mined. *)
Module Sim.

Record Deployed := {
  d_view : MarketView;
  d_outcome : Z;
}.

Record Node := {
  clock : Z;
  deployed : gmap address Deployed;
  usdc : gmap address Z;
  reverting : bool;
}.

Definition views (n : Node) (a : address) : string + MarketView :=
  match deployed n !! a with
  | Some d => inr (d_view d)
  | None => inl "could not decode result data"
  end.

Definition outcome_of (n : Node) (a : address) : string + Z :=
  match deployed n !! a with
  | Some d => inr (d_outcome d)
  | None => inl "could not decode result data"
  end.

Definition balanceOf (n : Node) (token owner : address) : string + Z :=
  inr (default 0%Z (usdc n !! owner)).

Definition receipt (created : option address) : Receipt :=
  {| r_hash := "0xabc"; r_blockNumber := 7; r_created := created |}.

Definition put (n : Node) (a : address) (d : Deployed) : Node :=
  {| clock := clock n; deployed := <[a := d]> (deployed n);
     usdc := usdc n; reverting := reverting n |}.

Definition settled (d : Deployed) (o : Z) : Deployed :=
  {| d_view :=
       {| v_isSettled := true; v_isFinalized := v_isFinalized (d_view d);
          v_adjudicator := v_adjudicator (d_view d);
          v_question := v_question (d_view d);
          v_deadline := v_deadline (d_view d); v_state := 3 |};
     d_outcome := o |}.

Definition finalized (d : Deployed) : Deployed :=
  {| d_view :=
       {| v_isSettled := v_isSettled (d_view d); v_isFinalized := true;
          v_adjudicator := v_adjudicator (d_view d);
          v_question := v_question (d_view d);
          v_deadline := v_deadline (d_view d); v_state := 4 |};
     d_outcome := d_outcome d |}.

Definition fresh (args : CreateArgs) : Deployed :=
  {| d_view :=
       {| v_isSettled := false; v_isFinalized := false;
          v_adjudicator := ca_adjudicator args;
          v_question := ca_question args;
          v_deadline := ca_deadline args; v_state := 0 |};
     d_outcome := 0 |}.

Definition new_market : address := "0x00000000000000000000000000000000000000A1".

Definition transact (n : Node) (from : address) (t : Tx) : TxResult Node :=
  if reverting n then WaitFailed "0xdead" "transaction execution reverted" n
  else match t with
  | TxSettle a o _ =>
    match deployed n !! a with
    | Some d => Confirmed (receipt None) (put n a (settled d o))
    | None => SubmitFailed "missing revert data" n
    end
  | TxFinalize a =>
    match deployed n !! a with
    | Some d => Confirmed (receipt None) (put n a (finalized d))
    | None => SubmitFailed "missing revert data" n
    end
  | TxApprove _ _ _ => Confirmed (receipt None) n
  | TxCreateMarket _ args =>
    Confirmed (receipt (Some new_market)) (put n new_market (fresh args))
  end.

Definition message (bad : BadArgument) : string :=
  match bad with
  | NotInteger _ => "underflow"
  | OutOfRange _ _ => "value out-of-bounds"
  end.

#[global] Instance node_external : External Node := {
  env_now := clock;
  call_views := views;
  call_outcome := outcome_of;
  call_balanceOf := balanceOf;
  send := transact;
  encoding_message := message;
}.

End Sim.

(** ** The question-metadata parser ([parse_question], Python)

    A Python [str] is a sequence of code points. *)

Definition char := N.
Definition str := list char.

(** Code points the parser names. *)
Definition SECTION_SIGN : char := 167%N.  (* § *)
Definition COLON : char := 58%N.
Definition UNDERSCORE : char := 95%N.

(** [str.isspace] on one code point: the characters [strip] and
    [split] without a separator treat as whitespace. *)
Definition isspace (c : char) : bool :=
  ((9 <=? c) && (c <=? 13) || (28 <=? c) && (c <=? 32)
   || (c =? 133) || (c =? 160) || (c =? 5760)
   || (8192 <=? c) && (c <=? 8202)
   || (c =? 8232) || (c =? 8233) || (c =? 8239) || (c =? 8287)
   || (c =? 12288))%N.

(** The line boundaries of [str.splitlines]. *)
Definition islinebreak (c : char) : bool :=
  ((10 <=? c) && (c <=? 13) || (28 <=? c) && (c <=? 30)
   || (c =? 133) || (c =? 8232) || (c =? 8233))%N.

Fixpoint dropwhile (p : char → bool) (s : str) : str :=
  match s with
  | [] => []
  | c :: r => if p c then dropwhile p r else s
  end.

Fixpoint takewhile (p : char → bool) (s : str) : str :=
  match s with
  | [] => []
  | c :: r => if p c then c :: takewhile p r else []
  end.

Definition lstrip (s : str) : str := dropwhile isspace s.
Definition rstrip (s : str) : str := rev (dropwhile isspace (rev s)).
(** [s.strip()] *)
Definition strip (s : str) : str := rstrip (lstrip s).

(** [s.splitlines()]: [cur] is the line being read, reversed; a [\r\n]
    pair is one boundary; no empty last line. *)
Fixpoint splitlines_from (cur : str) (s : str) : list str :=
  match s with
  | [] => match cur with [] => [] | _ => [rev cur] end
  | c :: r =>
    if islinebreak c then
      rev cur ::
        match r with
        | c' :: r' =>
          if ((c =? 13) && (c' =? 10))%N then splitlines_from [] r'
          else splitlines_from [] r
        | [] => splitlines_from [] r
        end
    else splitlines_from (c :: cur) r
  end.
Definition splitlines (s : str) : list str := splitlines_from [] s.

Definition nonspace (c : char) : bool := negb (isspace c).

(** [s.split(None, 1)]: the first word, and the rest of the text from
    its first non-blank character on, if there is one. *)
Definition split_once (s : str) : list str :=
  match lstrip s with
  | [] => []
  | s1 =>
    let word := takewhile nonspace s1 in
    match lstrip (dropwhile nonspace s1) with
    | [] => [word]
    | rest => [word; rest]
    end
  end.

(** [s.split()]: the words of [s]; [cur] is the word being read, reversed. *)
Fixpoint split_from (cur : str) (s : str) : list str :=
  match s with
  | [] => match cur with [] => [] | _ => [rev cur] end
  | c :: r =>
    if isspace c then
      match cur with
      | [] => split_from [] r
      | _ => rev cur :: split_from [] r
      end
    else split_from (c :: cur) r
  end.
Definition split (s : str) : list str := split_from [] s.

(** [s.startswith(prefix)] *)
Fixpoint startswith (prefix s : str) : bool :=
  match prefix, s with
  | [], _ => true
  | p :: prefix', c :: r => (p =? c)%N && startswith prefix' r
  | _ :: _, [] => false
  end.

(** [s.split(':', 1)] when [':' in s]: the text before the first colon
    and the text after it; [None] when [s] has no colon. *)
Fixpoint split_colon (s : str) : option (str * str) :=
  match s with
  | [] => None
  | c :: r =>
    if (c =? COLON)%N then Some ([], r)
    else (λ kv, (c :: kv.1, kv.2)) <$> split_colon r
  end.

(** The values of the parsed dictionary.  A tag holds a string or a
    dictionary; the entries of such a dictionary are strings, or, under a
    [__subtag] key, the key/value pairs of a sub-tag. *)
Inductive Entry :=
| EStr (s : str)
| EPairs (pairs : gmap str str).

Inductive TagValue :=
| Scalar (s : str)
| Block (d : gmap str Entry).

Inductive PyError :=
| TypeError     (* 'str' object does not support item assignment *)
| IndexError.   (* list index out of range *)

(** The key [_text] *)
Definition TEXT_KEY : str := [95; 116; 101; 120; 116]%N.  (* _text *)

(** The loop of [_save_tag] over the content lines. *)
Definition save_line (pairs : gmap str str) (line : str) : gmap str str :=
  match split_colon line with
  | Some (k, v) => <[strip k := strip v]> pairs
  | None => <[TEXT_KEY := line]> pairs
  end.

(** [len(content) == 1 and ':' not in content[0]] *)
Definition single_plain (content : list str) : bool :=
  match content with
  | [line] => bool_decide (split_colon line = None)
  | _ => false
  end.

(** [content[0]] *)
Definition first_line (content : list str) : PyError + str :=
  match content with
  | c0 :: _ => inr c0
  | [] => inl IndexError
  end.

(** [_save_tag(result, tag, content)] *)
Definition _save_tag (result : gmap str TagValue) (tag : str) (content : list str)
    : PyError + gmap str TagValue :=
  let scalar :=
    match first_line content with
    | inl e => inl e
    | inr c0 => inr (<[tag := Scalar c0]> result)
    end in
  if single_plain content then scalar
  else
    let pairs := foldl save_line ∅ content in
    if decide (pairs = ∅) then scalar
    else inr (<[tag := Block (EStr <$> pairs)]> result).

(** The pairs of a sub-tag line: [for token in parts[1].split()]. *)
Definition token_pair (pairs : gmap str str) (token : str) : gmap str str :=
  match split_colon token with
  | Some (k, v) => <[k := v]> pairs
  | None => pairs
  end.

(** Truthiness of [current_tag]: neither [None] nor the empty string. *)
Definition tag_open (current_tag : option str) : option str :=
  match current_tag with
  | Some (c :: t) => Some (c :: t)
  | _ => None
  end.

Record ParseState := {
  result : gmap str TagValue;
  current_tag : option str;
  current_content : list str;
}.

(** [if current_tag and current_content: _save_tag(...)] *)
Definition flush (st : ParseState) : PyError + gmap str TagValue :=
  match tag_open (current_tag st), current_content st with
  | Some tag, _ :: _ => _save_tag (result st) tag (current_content st)
  | _, _ => inr (result st)
  end.

(** One turn of the loop over the lines. *)
Definition parse_line (st : ParseState) (line : str) : PyError + ParseState :=
  if startswith [SECTION_SIGN; SECTION_SIGN] line then
    match split_once line with
    | [] => inl IndexError
    | [_] => inr st
    | part0 :: part1 :: _ =>
      let subtag := drop 2 part0 in
      let pairs := foldl token_pair ∅ (split part1) in
      match tag_open (current_tag st) with
      | None => inr st
      | Some tag =>
        let key := [UNDERSCORE; UNDERSCORE] ++ subtag in
        match result st !! tag with
        | Some (Scalar _) => inl TypeError
        | Some (Block d) =>
          inr {| result := <[tag := Block (<[key := EPairs pairs]> d)]> (result st);
                 current_tag := current_tag st;
                 current_content := current_content st |}
        | None =>
          inr {| result := <[tag := Block {[ key := EPairs pairs ]}]> (result st);
                 current_tag := current_tag st;
                 current_content := current_content st |}
        end
      end
    end
  else if startswith [SECTION_SIGN] line then
    match flush st with
    | inl e => inl e
    | inr saved =>
      match split_once line with
      | [] => inl IndexError
      | [part0] =>
        inr {| result := saved;
               current_tag := Some (drop 1 part0);
               current_content := [] |}
      | part0 :: part1 :: _ =>
        inr {| result := saved;
               current_tag := Some (drop 1 part0);
               current_content := [part1] |}
      end
    end
  else
    inr {| result := result st;
           current_tag := current_tag st;
           current_content := current_content st ++ [line] |}.

Fixpoint parse_lines (st : ParseState) (lines : list str) : PyError + ParseState :=
  match lines with
  | [] => inr st
  | line :: rest =>
    match parse_line st line with
    | inl e => inl e
    | inr st' => parse_lines st' rest
    end
  end.

Definition initial : ParseState :=
  {| result := ∅; current_tag := None; current_content := [] |}.

(** [parse_question(raw)] *)
Definition parse_question (raw : str) : PyError + gmap str TagValue :=
  match parse_lines initial (splitlines (strip raw)) with
  | inl e => inl e
  | inr st => flush st
  end.

(** The tag names the text opens, in order: the lines that start a
    top-level block. *)
Definition opens (line : str) : option str :=
  if startswith [SECTION_SIGN; SECTION_SIGN] line then None
  else if startswith [SECTION_SIGN] line then
    match split_once line with
    | part0 :: _ => Some (drop 1 part0)
    | [] => None
    end
  else None.

Definition opened_tags (raw : str) : list str :=
  omap opens (splitlines (strip raw)).

(** No stored string sits under the open tag or under a tag still to be
    opened, and the open tag is not opened again. *)
Definition fresh_tags (st : ParseState) (future : list str) : Prop :=
  (∀ k s, result st !! k = Some (Scalar s) →
          current_tag st ≠ Some k ∧ k ∉ future)
  ∧ (∀ t, current_tag st = Some t → t ∉ future)
  ∧ NoDup future.

(** Text literals: the code points of a UTF-8 encoded string (one-, two-
    and three-byte sequences). *)
Fixpoint utf8 (s : string) : str :=
  match s with
  | EmptyString => []
  | String a r =>
    let b := N_of_ascii a in
    if (b <? 128)%N then b :: utf8 r
    else match r with
    | String a1 r1 =>
      let b1 := N.land (N_of_ascii a1) 63 in
      if (b <? 224)%N then (N.land b 31 * 64 + b1)%N :: utf8 r1
      else match r1 with
      | String a2 r2 =>
        ((N.land b 15 * 64 + b1) * 64 + N.land (N_of_ascii a2) 63)%N :: utf8 r2
      | EmptyString => []
      end
    | EmptyString => []
    end
  end.

(** A text given by its lines. *)
Definition NEWLINE : char := 10%N.
Fixpoint text (lines : list string) : str :=
  match lines with
  | [] => []
  | [l] => utf8 l
  | l :: rest => utf8 l ++ NEWLINE :: text rest
  end.

(** The required tags of the document format. *)
Definition QUESTION : str := utf8 "question".
Definition RULE : str := utf8 "rule".

(** Question texts: the three examples of the format document, a text
    without a rule, a rule without a source and with a target that is no
    number, and a text that opens [question] a second time. *)
Module Texts.

Definition crypto : str :=
  text ["§question Will BTC hit $75,000 by Feb 20, 2026?";
        "§rule";
        "source:coingecko:bitcoin";
        "metric:price_usd";
        "op:gte";
        "target:75000";
        "§§source creator:HypeWatcher origin:moltbook:95759b5b"].

Definition manual : str :=
  text ["§question Will OpenAI announce GPT-5 by March 31, 2026?";
        "§rule";
        "source:manual";
        "resolver:soothsayer";
        "§§source origin:moltbook:5d5f032f"].

Definition minimal : str :=
  text ["§question Will ETH hit $5,000 by June 2026?";
        "§rule";
        "source:coingecko:ethereum";
        "op:gte";
        "target:5000"].

Definition no_rule : str :=
  text ["§question Will ETH hit $5,000 by June 2026?"].

Definition rule_without_source : str :=
  text ["§question Will ETH hit $5,000 by June 2026?";
        "§rule";
        "op:gte";
        "target:lots"].

Definition reopened : str :=
  text ["§question Will ETH hit $5,000 by June 2026?";
        "§rule";
        "source:manual";
        "§question";
        "§§source origin:moltbook:5d5f032f"].

End Texts.

(** ** Scoring *)

Inductive Outcome := OutYES | OutNO | OutINVALID.

(** The formula of the commit format document:
    [score = 1 - (confidence/100 - outcome)²]. *)
Definition brier (confidence : Z) (outcome : Q) : Q :=
  (1 - ((confidence # 100) - outcome) ^ 2)%Q.

Definition position_matches (p : Position) (winning : Outcome) : bool :=
  match p, winning with
  | PosYES, OutYES | PosNO, OutNO => true
  | _, _ => false
  end.

(** Modelled from the spec: the function [score(commitment, outcome)] of
    the Scoring Subsystem.  The sources hold the formula above and refer to
    a scoring script, but no scoring function.  With [o = 1] if the
    position matches the winning outcome and [0] otherwise, the score is the
    formula at [o]; on an INVALID outcome it is null. *)
Definition score (c : Commitment) (winning : Outcome) : option Q :=
  match winning with
  | OutINVALID => None
  | _ => Some (brier (c_confidence c)
                 (if position_matches (c_position c) winning then 1 else 0)%Q)
  end.

(** [score c winning] is the number [q]. *)
Definition scores (c : Commitment) (winning : Outcome) (q : Q) : Prop :=
  match score c winning with
  | Some s => (s == q)%Q
  | None => False
  end.

(** The design document states the loss instead:
    [Brier score = (forecast - outcome)²], lower is better. *)
Definition brier_loss (forecast outcome : Q) : Q := ((forecast - outcome) ^ 2)%Q.

Definition commit (agent : string) (p : Position) (confidence : Z) : Commitment :=
  {| c_agent := agent; c_position := p; c_confidence := confidence |}.

(** ** The rules the documents state, for comparison with the scripts *)

(** The status machine of [AAP_SPEC.md] (Status Transitions, "No
    skipping") as the specification reads it: [open → resolved → settled →
    finalized], and [invalid] from [open] or [resolved]. *)
Definition STATUSES : list string :=
  ["open"; "resolved"; "settled"; "finalized"; "invalid"].

Definition allowed_transition (from to : string) : bool :=
  bool_decide
    ((from, to) ∈ [("open", "resolved"); ("resolved", "settled");
                   ("settled", "finalized");
                   ("open", "invalid"); ("resolved", "invalid")]).

(** The graduation criteria (SKILL.md, Graduation Criteria): at least 5
    commitments, at least 3 distinct agents, at least 7 days to the
    deadline, and a rule source other than [manual]. *)
Definition SEVEN_DAYS_MS : Z := 7 * 24 * 60 * 60 * 1000.

Definition distinct_agents (cs : list Commitment) : nat :=
  length (remove_dups (c_agent <$> cs)).

Definition eligible (m : Market) (now_ms : Z) : bool :=
  (5 <=? length (m_commitments m))%nat
  && (3 <=? distinct_agents (m_commitments m))%nat
  && match m_deadline m with
     | Some d => (now_ms + SEVEN_DAYS_MS <=? d)%Z
     | None => false
     end
  && match m_rule_source m with
     | Some src => negb (String.eqb src "manual")
     | None => false
     end.

(** A file the loaders cannot read. *)
Definition unreadable {A} (f : File A) : bool :=
  match f with Parsed _ => false | _ => true end.

(** ** Concrete worlds

    One wallet, one deployed market whose adjudicator is that wallet
    (in another letter case), and one local market record pointing to it. *)
Module Scenario.
Import Sim.

Definition wallet0 : address := "0xAbCdEf0000000000000000000000000000000001".
Definition stranger : address := "0x9999990000000000000000000000000000000009".
Definition market0 : address := "0x00000000000000000000000000000000000000B2".

Definition view0 (settled finalized : bool) (adj : address) (state : Z) : MarketView :=
  {| v_isSettled := settled; v_isFinalized := finalized;
     v_adjudicator := adj;
     v_question := "@SoothSayer Will BTC hit $75,000 by Feb 20, 2026?";
     v_deadline := 1771631940; v_state := state |}.

Definition node0 (settled finalized : bool) (adj : address) (state : Z)
    (revert : bool) : Node :=
  {| clock := 1771700000123;
     deployed := {[ market0 := {| d_view := view0 settled finalized adj state;
                                  d_outcome := 1 |} ]};
     usdc := {[ wallet0 := 1000000000%Z ]};
     reverting := revert |}.

Definition record0 (status : string) (deadline : option Z)
    (source : option string) (commitments : list Commitment)
    (addr : option address) : Market :=
  {| m_id := "market_abc123";
     m_question := "Will BTC hit $75,000 by Feb 20, 2026?";
     m_status := status;
     m_deadline := deadline;
     m_rule_source := source;
     m_commitments := commitments;
     m_moltbook_post_id := Some "6f0ed709";
     m_market_address := addr;
     m_settled_tx := None;
     m_finalized_tx := None |}.

Definition db0 (m : Market) : Db :=
  {| db_version := Some 2%Z; db_markets := {[ "market_abc123" := m ]} |}.

Definition world0 (n : Node) (m : Market) : World Node :=
  {| env := n; markets_file := Parsed (db0 m); mappings_file := Missing |}.

Definition resolved0 : Market :=
  record0 "resolved" (Some 1771631940000%Z) (Some "coingecko:bitcoin") [] (Some market0).

(** The market is live on chain and ours. *)
Definition live : World Node :=
  world0 (node0 false false "0xabcdef0000000000000000000000000000000001" 1 false) resolved0.
(** The same, but every transaction reverts. *)
Definition live_reverting : World Node :=
  world0 (node0 false false "0xabcdef0000000000000000000000000000000001" 1 true) resolved0.
(** The market is already settled on chain. *)
Definition settled_on_chain : World Node :=
  world0 (node0 true false "0xabcdef0000000000000000000000000000000001" 3 false) resolved0.
(** The market is already finalized on chain. *)
Definition finalized_on_chain : World Node :=
  world0 (node0 true true "0xabcdef0000000000000000000000000000000001" 4 false) resolved0.
(** The market belongs to another adjudicator. *)
Definition not_ours : World Node :=
  world0 (node0 false false stranger 1 false) resolved0.

(** Locally still [open], settled on chain, not yet finalized. *)
Definition open_settled_on_chain : World Node :=
  world0 (node0 true false "0xabcdef0000000000000000000000000000000001" 3 false)
    (record0 "open" (Some 1771631940000%Z) (Some "coingecko:bitcoin") [] (Some market0)).

(** A market nobody committed to, resolved by hand, due one second after
    the clock reading; no mappings file yet. *)
Definition ungraduated : Market :=
  record0 "open" (Some 1771700001000%Z) (Some "manual") [] None.
Definition before_graduation : World Node :=
  world0 (node0 false false "0xabcdef0000000000000000000000000000000001" 1 false)
    ungraduated.

(** The arguments [create] builds for it. *)
Definition args0 : CreateArgs :=
  {| ca_question := "@SoothSayer Will BTC hit $75,000 by Feb 20, 2026?";
     ca_startTime := 1771700060;
     ca_deadline := 1771700001;
     ca_adjudicator := wallet0;
     ca_guardian := ProtocolConfig;
     ca_initialLiquidity := 1000000000000000000000;
     ca_agentId := 0;
     ca_minValidators := 0 |}.

(** The status a world stores for the market of the scenario. *)
Definition stored_status (w : World Node) : option string :=
  m_status <$> db_markets (loadMarkets (markets_file w)) !! "market_abc123".

End Scenario.

(** ** What a settler run may change in a record *)

(** Two market records that agree on everything but the settlement
    fields ([status], [settled_tx], [finalized_tx]). *)
Definition same_but_sync (m m' : Market) : Prop :=
  m_id m' = m_id m
  ∧ m_question m' = m_question m
  ∧ m_deadline m' = m_deadline m
  ∧ m_rule_source m' = m_rule_source m
  ∧ m_commitments m' = m_commitments m
  ∧ m_moltbook_post_id m' = m_moltbook_post_id m
  ∧ m_market_address m' = m_market_address m.

(** More worlds: a market whose deadline lies beyond the range of a JS
    [Date], and a registry with a second record, of another market. *)
Module MoreWorlds.
Import Sim Scenario.

Definition far_view : MarketView :=
  {| v_isSettled := false; v_isFinalized := false;
     v_adjudicator := wallet0;
     v_question := "@SoothSayer Will the sun still shine?";
     v_deadline := 8640000000001; v_state := 1 |}.

Definition far_deadline : World Node :=
  {| env := {| clock := 1771700000123;
               deployed := {[ market0 := {| d_view := far_view; d_outcome := 0 |} ]};
               usdc := ∅; reverting := false |};
     markets_file := Parsed (db0 resolved0);
     mappings_file := Missing |}.

Definition other_market : address := "0x00000000000000000000000000000000000000C3".

Definition other_record : Market :=
  {| m_id := "market_def456";
     m_question := "Will ETH hit $5,000 by June 2026?";
     m_status := "open";
     m_deadline := Some 1782000000000%Z;
     m_rule_source := Some "coingecko:ethereum";
     m_commitments := [];
     m_moltbook_post_id := None;
     m_market_address := Some other_market;
     m_settled_tx := None;
     m_finalized_tx := None |}.

Definition two_records : World Node :=
  {| env := env live;
     markets_file :=
       Parsed {| db_version := Some 2%Z;
                 db_markets := {[ "market_abc123" := resolved0;
                                  "market_def456" := other_record ]} |};
     mappings_file := Missing |}.

(** An open market whose deadline text does not parse as a date. *)
Definition undated : World Node :=
  world0 (node0 false false wallet0 1 false)
    (record0 "open" None (Some "coingecko:bitcoin") [] None).

(** A wallet holding one unit less than the estimated deposit. *)
Definition short_of_funds : World Node :=
  {| env := {| clock := 1771700000123; deployed := ∅;
               usdc := {[ wallet0 := 692999999%Z ]}; reverting := false |};
     markets_file := Parsed (db0 ungraduated);
     mappings_file := Missing |}.

End MoreWorlds.

(** ** More on the parser *)

(** The loop of [parse_question] and the closing of the last block, over
    the lines of the stripped text. *)
Definition parse_document (lines : list str) : PyError + gmap str TagValue :=
  match parse_lines initial lines with
  | inl e => inl e
  | inr st => flush st
  end.

(** A dictionary of a block that holds only strings, or only the pairs
    of sub-tags. *)
Definition strings_only (d : gmap str Entry) : Prop :=
  ∀ k e, d !! k = Some e → ∃ s, e = EStr s.
Definition subtags_only (d : gmap str Entry) : Prop :=
  ∀ k e, d !! k = Some e → ∃ pairs, e = EPairs pairs.

(** While a text that opens no tag twice is read: no key of the
    dictionary is a tag still to be opened, the open tag is not opened
    again, what the dictionary holds under the open tag came from sub-tag
    lines, and every block is of one kind. *)
Definition tidy (st : ParseState) (future : list str) : Prop :=
  (∀ k, is_Some (result st !! k) → k ∉ future)
  ∧ (∀ t, current_tag st = Some t → t ∉ future)
  ∧ NoDup future
  ∧ (∀ t v, current_tag st = Some t → result st !! t = Some v →
            ∃ d, v = Block d ∧ subtags_only d)
  ∧ (∀ k d, result st !! k = Some (Block d) → strings_only d ∨ subtags_only d).

(** Two states of the loop with no block open that differ at most in the
    lines collected so far. *)
Definition same_but_content (st st' : ParseState) : Prop :=
  result st = result st'
  ∧ current_tag st = current_tag st'
  ∧ tag_open (current_tag st) = None.

(** What [parse_question] returns for the state the loop ended in. *)
Definition closing (r : PyError + ParseState) : PyError + gmap str TagValue :=
  match r with
  | inl e => inl e
  | inr st => flush st
  end.

(** More texts: lines ahead of the first tag, and a block that has a
    sub-tag and no content line. *)
Module MoreTexts.

Definition greeting : list str :=
  [utf8 "Dear agents,"; utf8 "§§source origin:moltbook:5d5f032f"; []].

Definition minimal_lines : list str :=
  [utf8 "§question Will ETH hit $5,000 by June 2026?";
   utf8 "§rule";
   utf8 "source:coingecko:ethereum";
   utf8 "op:gte";
   utf8 "target:5000"].

Definition bare_block : str :=
  text ["§rule";
        "§§source creator:HypeWatcher origin:moltbook:95759b5b";
        "§event US Election 2026"].

(** A marker followed by a blank: the tag has no name. *)
Definition nameless : str :=
  text ["§ question Will it rain?";
        "in Lisbon";
        "§event US Election 2026"].

Definition crypto_rule : gmap str Entry :=
  {[ utf8 "source" := EStr (utf8 "coingecko:bitcoin");
     utf8 "metric" := EStr (utf8 "price_usd");
     utf8 "op" := EStr (utf8 "gte");
     utf8 "target" := EStr (utf8 "75000") ]}.

Definition crypto_parsed : gmap str TagValue :=
  {[ QUESTION := Scalar (utf8 "Will BTC hit $75,000 by Feb 20, 2026?");
     RULE := Block crypto_rule ]}.

End MoreTexts.

(** ** The no-delete guard ([api_request], Python) *)

(** [str.upper] on ASCII text: the letters a-z move to A-Z.  (On other
    code points Python's table applies; the model leaves them.) *)
Definition ascii_upper (c : char) : char :=
  if ((97 <=? c) && (c <=? 122))%N then (c - 32)%N else c.
Definition upper (s : str) : str := ascii_upper <$> s.

Definition DELETE : str := utf8 "DELETE".

Inductive Forbidden := PermissionError.

(** [api_request(method, endpoint, data, api_key)]: the guard, and then
    the part the document leaves out ([# ... proceed]), taken as given. *)
Definition api_request {D K R : Type} (proceed : str → str → D → K → R)
    (method endpoint : str) (data : D) (api_key : K) : Forbidden + R :=
  if decide (upper method = DELETE) then inl PermissionError
  else inr (proceed method endpoint data api_key).

(** The spellings of a word in upper and lower case letters. *)
Definition spells (word method : str) : Prop :=
  Forall2 (λ c d, c = d ∨ c = (d + 32)%N) method word.

(** * Properties *)

(** ** Shared lemmas on runs *)

Lemma sent_app (l1 l2 : list Event) : sent (l1 ++ l2) = sent l1 ++ sent l2.
Proof.
  induction l1 as [|[from t|m] l1 IH]; cbn; [done| |done].
  by rewrite IH.
Qed.

(** ** Which arguments encode *)

Lemma bad_bigint_None (argument : string) (bits value : Z) :
  bad_bigint argument bits value = None ↔ (0 ≤ value < 2 ^ bits)%Z.
Proof.
  unfold bad_bigint.
  destruct (0 <=? value)%Z eqn:H0; destruct (value <? 2 ^ bits)%Z eqn:H1; cbn;
    try apply Z.leb_le in H0; try apply Z.leb_gt in H0;
    try apply Z.ltb_lt in H1; try apply Z.ltb_ge in H1;
    (split; [try done; intros _|try done; intros ?]); lia.
Qed.

Lemma bad_number_None (argument : string) (bits value : Z) :
  bad_number argument bits value = None
  ↔ (0 ≤ value ≤ MAX_SAFE_INTEGER)%Z ∧ (value < 2 ^ bits)%Z.
Proof.
  unfold bad_number.
  destruct (- MAX_SAFE_INTEGER <=? value)%Z eqn:H0;
    destruct (value <=? MAX_SAFE_INTEGER)%Z eqn:H1; cbn [andb];
    try apply Z.leb_le in H0; try apply Z.leb_gt in H0;
    try apply Z.leb_le in H1; try apply Z.leb_gt in H1;
    unfold MAX_SAFE_INTEGER in *;
    [|split; [done|lia]..].
  split; [intros ?%bad_bigint_None|intros ?; apply bad_bigint_None]; lia.
Qed.

(** [settle(outcome, tStar)] encodes exactly when the outcome is a
    [uint8] and the time a [uint64]. *)
Lemma settle_encodes (a : address) (o t : Z) :
  unencodable (TxSettle a o t) = None ↔ (0 ≤ o ≤ 255)%Z ∧ (0 ≤ t < 2 ^ 64)%Z.
Proof.
  cbn [unencodable first_bad foldr].
  destruct (bad_number "outcome" 8 o) as [bad|] eqn:Ho.
  - split; [done|]. intros [Hr _].
    assert (bad_number "outcome" 8 o = None) as Hn; [|congruence].
    apply bad_number_None. unfold MAX_SAFE_INTEGER. lia.
  - apply bad_number_None in Ho.
    destruct (bad_bigint "tStar" 64 t) as [bad|] eqn:Ht.
    + split; [done|]. intros [_ Hr].
      apply (bad_bigint_None "tStar") in Hr. congruence.
    + apply bad_bigint_None in Ht. split; [lia|done].
Qed.

(** The [approve] call of [create] always encodes. *)
Lemma approve_encodes :
  unencodable (TxApprove MockUSDC LaunchpadEngine MaxUint256) = None.
Proof. reflexivity. Qed.

(** The [createMarket] call of [create] encodes on time values: with the
    clock after the epoch and the deadline, later than the clock, within
    the range of a JS [Date]. *)
Lemma createMarket_encodes (question : string) (now d : Z) (wallet : address) :
  (0 ≤ now < d)%Z → (d ≤ 8640000000000)%Z →
  unencodable
    (TxCreateMarket LaunchpadEngine
       {| ca_question := question;
          ca_startTime := (now + 60)%Z;
          ca_deadline := d;
          ca_adjudicator := wallet;
          ca_guardian := ProtocolConfig;
          ca_initialLiquidity := (1000 * 10 ^ 18)%Z;
          ca_agentId := 0;
          ca_minValidators := 0 |}) = None.
Proof.
  intros Hnow Hd.
  cbn [unencodable first_bad foldr ca_startTime ca_deadline ca_initialLiquidity
       ca_agentId ca_minValidators].
  rewrite (proj2 (bad_number_None "startTime" 64 (now + 60)))
    by (unfold MAX_SAFE_INTEGER; lia).
  rewrite (proj2 (bad_number_None "deadline" 64 d))
    by (unfold MAX_SAFE_INTEGER; lia).
  reflexivity.
Qed.

(** Membership in an explicit event list, by cases. *)
Ltac elem_cases H :=
  repeat (rewrite elem_of_app in H || rewrite elem_of_cons in H
          || rewrite elem_of_nil in H);
  intuition (try discriminate).

Section SettlerFacts.
Context {Env : Type} `{External Env}.
Variable wallet : address.

Lemma settle_ends w a o : settle_end wallet w a o (settle wallet w a o).
Proof.
  unfold settle.
  destruct (has_error _) eqn:He; [by constructor; [| |left]|].
  destruct (isOurs _) eqn:Ho; cbn [negb]; [|by constructor; [| |right; left]].
  destruct (isSettled _) eqn:Hs; [by constructor; [| |right; right]|].
  destruct (unencodable _) as [bad|] eqn:Henc; [by eapply settle_unencodable|].
  destruct (send _ _ _) as [msg e'|hash msg e'|r e'] eqn:Htx.
  - eapply settle_failed; try done. by rewrite Htx.
  - eapply settle_failed; try done. by rewrite Htx.
  - cbv zeta. cbn [markets_file with_env].
    by eapply settle_done.
Qed.

Lemma finalize_ends w a : finalize_end wallet w a (finalize wallet w a).
Proof.
  unfold finalize.
  destruct (has_error _) eqn:He; [by constructor; [| |left]|].
  destruct (isSettled _) eqn:Hs; cbn [negb]; [|by constructor; [| |right; left]].
  destruct (isFinalized _) eqn:Hf; [by constructor; [| |right; right]|].
  destruct (send _ _ _) as [msg e'|hash msg e'|r e'] eqn:Htx.
  - eapply finalize_failed; try done. by rewrite Htx.
  - eapply finalize_failed; try done. by rewrite Htx.
  - cbv zeta. cbn [markets_file with_env].
    by eapply finalize_done.
Qed.

(** A full status repeats what the views returned. *)
Lemma getMarketStatus_ok e a s :
  getMarketStatus wallet e a = StatusOk s →
  ∃ v, call_views e a = inr v
       ∧ st_isSettled s = v_isSettled v
       ∧ st_isFinalized s = v_isFinalized v
       ∧ st_adjudicator s = v_adjudicator v
       ∧ st_isOurs s = bool_decide (toLowerCase (v_adjudicator v) = toLowerCase wallet).
Proof.
  unfold getMarketStatus.
  destruct (call_views e a) as [msg|v]; [discriminate|].
  destruct (v_isSettled v) eqn:Hs.
  - destruct (call_outcome e a) as [msg|o]; [discriminate|].
    destruct (_ <? _)%Z; [discriminate|].
    intros [= <-]. cbn. by exists v.
  - destruct (_ <? _)%Z; [discriminate|].
    intros [= <-]. cbn. by exists v.
Qed.

Lemma isOurs_views e a :
  isOurs (getMarketStatus wallet e a) = true →
  ∃ v, call_views e a = inr v
       ∧ toLowerCase (v_adjudicator v) = toLowerCase wallet
       ∧ isSettled (getMarketStatus wallet e a) = v_isSettled v.
Proof.
  destruct (getMarketStatus wallet e a) as [a' msg|s] eqn:Hst; [discriminate|].
  apply getMarketStatus_ok in Hst as (v & Hv & Hs & _ & _ & Ho).
  cbn. rewrite Ho. intros Hd%bool_decide_eq_true. by exists v.
Qed.

Lemma isSettled_views e a :
  isSettled (getMarketStatus wallet e a) = true →
  ∃ v, call_views e a = inr v
       ∧ v_isSettled v = true
       ∧ isFinalized (getMarketStatus wallet e a) = v_isFinalized v.
Proof.
  destruct (getMarketStatus wallet e a) as [a' msg|s] eqn:Hst; [discriminate|].
  apply getMarketStatus_ok in Hst as (v & Hv & Hs & Hf & _ & _).
  cbn. rewrite Hs. intros Hd. by exists v.
Qed.

End SettlerFacts.

(** ** Settlement: read before write *)

Section Settlement.
Context {Env : Type} `{External Env}.
Variable wallet : address.

Lemma settle_twice `{!Irrevocable Env} w a o :
  tx_failed (fst (settle wallet w a o)) = false →
  sent (fst (settle wallet (snd (settle wallet w a o)) a o)) = []
  ∧ snd (settle wallet (snd (settle wallet w a o)) a o) = snd (settle wallet w a o).
Proof.
  destruct (settle_ends wallet w a o)
    as [evs Hs Hf Hg|evs msg e' _ _ _ _ _ _ Hf _|evs r e' _ _ _ _ Htx _ _
       |evs bad _ _ _ _ _ _ Hf]; cbn [fst snd].
  - intros _.
    destruct (settle_ends wallet w a o)
      as [evs' Hs' _ _|evs' msg e' He Ho Hst _ _ _ _ _|evs' r e' He Ho Hst _ _ _ _
         |evs' bad He Ho Hst _ _ _ _];
      cbn [fst snd]; [done|..]; destruct Hg as [?|[?|?]]; congruence.
  - by rewrite Hf.
  - intros _.
    match goal with |- context [settle wallet ?w1 a o] =>
      destruct (settle_ends wallet w1 a o)
        as [evs' Hs' _ _|evs' msg e'' He Ho Hst _ _ _ _ _|evs' r' e'' He Ho Hst _ _ _ _
           |evs' bad He Ho Hst _ _ _ _]
    end; cbn [fst snd]; [done|..]; cbn [env saveMarkets with_env] in *;
      apply isOurs_views in Ho as (v & Hv & _ & Hsv);
      rewrite (settle_confirmed _ _ _ _ _ _ _ _ Htx Hv) in Hsv; congruence.
  - by rewrite Hf.
Qed.

Lemma finalize_twice `{!Irrevocable Env} w a :
  tx_failed (fst (finalize wallet w a)) = false →
  sent (fst (finalize wallet (snd (finalize wallet w a)) a)) = []
  ∧ snd (finalize wallet (snd (finalize wallet w a)) a) = snd (finalize wallet w a).
Proof.
  destruct (finalize_ends wallet w a)
    as [evs Hs Hf Hg|evs msg e' _ _ _ _ _ _ Hf|evs r e' _ _ _ _ Htx _]; cbn [fst snd].
  - intros _.
    destruct (finalize_ends wallet w a)
      as [evs' Hs' _ _|evs' msg e' He Hst Hfi _ _ _ _|evs' r e' He Hst Hfi _ _ _];
      cbn [fst snd]; [done|..]; destruct Hg as [?|[?|?]]; congruence.
  - by rewrite Hf.
  - intros _.
    match goal with |- context [finalize wallet ?w1 a] =>
      destruct (finalize_ends wallet w1 a)
        as [evs' Hs' _ _|evs' msg e'' He Hst Hfi _ _ _ _|evs' r' e'' He Hst Hfi _ _ _]
    end; cbn [fst snd]; [done|..]; cbn [env saveMarkets with_env] in *;
      apply isSettled_views in Hst as (v & Hv & _ & Hfv);
      rewrite (finalize_confirmed _ _ _ _ _ _ Htx Hv) in Hfv; congruence.
Qed.

(** What the fresh read guards: a status that reports the market settled
    stops [settle], one that reports it finalized stops [finalize]. *)
Lemma reached_stops (w : World Env) (cmd : Command) :
  reached cmd (getMarketStatus wallet (env w) (target cmd)) = true →
  sent (fst (settler_main wallet w cmd)) = [] ∧ snd (settler_main wallet w cmd) = w.
Proof.
  destruct cmd as [a o|a]; cbn [settler_main reached target]; intros Hr.
  - destruct (settle_ends wallet w a o)
      as [evs Hs _ _|evs msg e' _ _ Hst _ _ _ _ _|evs r e' _ _ Hst _ _ _ _
         |evs bad _ _ Hst _ _ _ _];
      cbn [fst snd]; [done|congruence..].
  - destruct (finalize_ends wallet w a)
      as [evs Hs _ _|evs msg e' _ _ Hfi _ _ _ _|evs r e' _ _ Hfi _ _ _];
      cbn [fst snd]; [done|congruence..].
Qed.

(** C1 (as amended).  For every market address and every environment:
    when the status read at the start of a run reports the market settled,
    [settle] sends nothing and leaves the world as it was; when it reports
    the market finalized, so does [finalize].  Hence, over a contract that
    reports a confirmed settlement (finalization), a second run of the
    same command right after a first one that did not end in a failed
    transaction sends nothing and leaves the world as the first run left
    it.  The contract law is assumed for the second part alone. *)
Theorem no_reissue_once_reached (w : World Env) (cmd : Command) :
  let first := settler_main wallet w cmd in
  let second := settler_main wallet (snd first) cmd in
  (reached cmd (getMarketStatus wallet (env w) (target cmd)) = true →
     sent (fst first) = [] ∧ snd first = w)
  ∧ (Irrevocable Env →
     tx_failed (fst first) = false →
     sent (fst second) = [] ∧ snd second = snd first).
Proof.
  cbv zeta. split; [apply reached_stops|].
  intros Hlaw. destruct cmd as [a o|a]; cbn [settler_main].
  - apply settle_twice.
  - apply finalize_twice.
Qed.

End Settlement.

(** The simulated node honours confirmed settlements and finalizations. *)
#[global] Instance node_irrevocable : Irrevocable Sim.Node.
Proof.
  split.
  - intros e from a o t r e' v Hs Hv. cbn in Hs, Hv. unfold Sim.transact in Hs.
    destruct (Sim.reverting e); [discriminate|].
    destruct (Sim.deployed e !! a) as [d|] eqn:Hd; [|discriminate].
    injection Hs as _ <-. unfold Sim.views, Sim.put in Hv. cbn in Hv.
    rewrite lookup_insert_eq in Hv. by injection Hv as <-.
  - intros e from a r e' v Hs Hv. cbn in Hs, Hv. unfold Sim.transact in Hs.
    destruct (Sim.reverting e); [discriminate|].
    destruct (Sim.deployed e !! a) as [d|] eqn:Hd; [|discriminate].
    injection Hs as _ <-. unfold Sim.views, Sim.put in Hv. cbn in Hv.
    rewrite lookup_insert_eq in Hv. by injection Hv as <-.
Qed.

Module SettlementExamples.
Import Sim Scenario.

(** C1, what fails in the claim as stated: a first [settle] whose
    transaction reverts changes nothing, on chain or locally, and the second
    run sends the settle transaction again. *)
Lemma settle_sent_again_after_failure :
  let first := settle wallet0 live_reverting market0 1 in
  let second := settle wallet0 (snd first) market0 1 in
  snd first = live_reverting
  ∧ sent (fst first) = [TxSettle market0 1 1771700000]
  ∧ sent (fst second) = [TxSettle market0 1 1771700000].
Proof. vm_compute. done. Qed.

Lemma no_reissue_once_reached_witness :
  (reached (CmdFinalize market0)
     (getMarketStatus wallet0 (env finalized_on_chain) market0) = true
   ∧ sent (fst (settler_main wallet0 finalized_on_chain (CmdFinalize market0))) = [])
  ∧ (tx_failed (fst (settler_main wallet0 live (CmdSettle market0 1))) = false
     ∧ sent (fst (settler_main wallet0 live (CmdSettle market0 1)))
       = [TxSettle market0 1 1771700000]
     ∧ sent (fst (settler_main wallet0
                    (snd (settler_main wallet0 live (CmdSettle market0 1)))
                    (CmdSettle market0 1))) = []).
Proof.
  split.
  - split; [reflexivity|].
    apply (proj1 (no_reissue_once_reached wallet0 finalized_on_chain (CmdFinalize market0))).
    reflexivity.
  - split; [reflexivity|]. split; [reflexivity|].
    apply (proj2 (no_reissue_once_reached wallet0 live (CmdSettle market0 1)));
      [exact node_irrevocable|reflexivity].
Defined.

End SettlementExamples.

(** ** Settlement: failures, authorization, outcome encoding *)

Section SettlerClaims.
Context {Env : Type} `{External Env}.
Variable wallet : address.

(** C5.  In a [settle] or [finalize] run that sends its transaction and
    whose submission or confirmation throws, the last console line is the
    [TX failed] report with the message thrown, and both local files are
    as before the run.  More generally, every run that reaches the
    [catch], also one whose call threw before anything was sent, ends with
    the [TX failed] report and leaves both local files as they were. *)
Theorem failed_transaction_keeps_registry (w : World Env) (cmd : Command) :
  (∀ (tx : Tx) (msg : string),
     sent (fst (settler_main wallet w cmd)) = [tx] →
     failure (send (env w) wallet tx) = Some msg →
     last (fst (settler_main wallet w cmd)) = Some (Out (ErrTxFailed msg))
     ∧ markets_file (snd (settler_main wallet w cmd)) = markets_file w
     ∧ mappings_file (snd (settler_main wallet w cmd)) = mappings_file w)
  ∧ (tx_failed (fst (settler_main wallet w cmd)) = true →
     (∃ thrown, last (fst (settler_main wallet w cmd))
                = Some (Out (ErrTxFailed thrown)))
     ∧ markets_file (snd (settler_main wallet w cmd)) = markets_file w
     ∧ mappings_file (snd (settler_main wallet w cmd)) = mappings_file w).
Proof.
  split.
  - intros tx msg. destruct cmd as [a o|a]; cbn [settler_main].
    + destruct (settle_ends wallet w a o)
        as [evs Hs _ _|evs msg' e' _ _ _ Hs Hfail Hlast _ _|evs r e' _ _ _ Hs Htx _ _
           |evs bad _ _ _ _ Hs _ _];
        cbn [fst snd]; rewrite Hs; intros [= <-].
      * rewrite Hfail. by intros [= ->].
      * by rewrite Htx.
    + destruct (finalize_ends wallet w a)
        as [evs Hs _ _|evs msg' e' _ _ _ Hs Hfail Hlast _|evs r e' _ _ _ Hs Htx _];
        cbn [fst snd]; rewrite Hs; intros [= <-].
      * rewrite Hfail. by intros [= ->].
      * by rewrite Htx.
  - destruct cmd as [a o|a]; cbn [settler_main].
    + destruct (settle_ends wallet w a o)
        as [evs _ Hf _|evs msg' e' _ _ _ _ _ Hlast _ _|evs r e' _ _ _ _ _ Hf _
           |evs bad _ _ _ _ _ Hlast _];
        cbn [fst snd]; [congruence| |congruence|]; intros _; split; eauto.
    + destruct (finalize_ends wallet w a)
        as [evs _ Hf _|evs msg' e' _ _ _ _ _ Hlast _|evs r e' _ _ _ _ _ Hf];
        cbn [fst snd]; [congruence| |congruence]; intros _; split; eauto.
Qed.

(** C7.  A [settle] run sends a transaction only after the views of the
    market returned an adjudicator equal, letter case apart, to the wallet
    address; when the adjudicator returned differs, the run sends nothing
    and leaves the world as it was. *)
Theorem settle_requires_our_adjudicator (w : World Env) (a : address) (o : Z) :
  (sent (fst (settle wallet w a o)) ≠ [] →
     ∃ v, call_views (env w) a = inr v
          ∧ toLowerCase (v_adjudicator v) = toLowerCase wallet)
  ∧ (∀ v, call_views (env w) a = inr v →
          toLowerCase (v_adjudicator v) ≠ toLowerCase wallet →
          sent (fst (settle wallet w a o)) = [] ∧ snd (settle wallet w a o) = w).
Proof.
  destruct (settle_ends wallet w a o)
    as [evs Hs _ _|evs msg e' _ Ho _ _ _ _ _ _|evs r e' _ Ho _ _ _ _ _
       |evs bad _ _ _ _ Hs _ _]; cbn [fst snd].
  - split; [by rewrite Hs|done].
  - apply isOurs_views in Ho as (v & Hv & Hadj & _). split; [by exists v|].
    intros v' Hv' Hne. congruence.
  - apply isOurs_views in Ho as (v & Hv & Hadj & _). split; [by exists v|].
    intros v' Hv' Hne. congruence.
  - split; [by rewrite Hs|done].
Qed.

(** C4.  [OUTCOMES] reads 0 as NO, 1 as YES, 2 as INVALID and nothing
    else; the outcome label of a status is [OUTCOMES] at the number the
    contract returned (and absent for an unsettled market); [settle] passes
    its outcome number to the contract as it is and logs it with its
    [OUTCOMES] label. *)
Theorem outcome_encoding :
  (∀ n label, js_index OUTCOMES n = Some label ↔
     (n = 0%Z ∧ label = "NO") ∨ (n = 1%Z ∧ label = "YES")
     ∨ (n = 2%Z ∧ label = "INVALID"))
  ∧ (∀ e a s, getMarketStatus wallet e a = StatusOk s →
       if st_isSettled s
       then ∃ n, call_outcome e a = inr n ∧ st_outcome s = js_index OUTCOMES n
       else st_outcome s = None)
  ∧ (∀ w a o,
       nth_error (fst (settle wallet w a o)) 1
         = Some (Out (LogOutcome o (js_index OUTCOMES o)))
       ∧ ∀ tx, tx ∈ sent (fst (settle wallet w a o)) →
               tx = TxSettle a o (env_now (env w) / 1000)%Z).
Proof.
  split; [|split].
  - intros n label. unfold js_index, OUTCOMES.
    destruct (n <? 0)%Z eqn:Hneg.
    + apply Z.ltb_lt in Hneg. split; [done|]. intros [[-> _]|[[-> _]|[-> _]]]; lia.
    + apply Z.ltb_ge in Hneg.
      destruct (Z.to_nat n) as [|[|[|k]]] eqn:Hn; cbn; split.
      * intros [= <-]. left. split; [lia|done].
      * intros [[_ ->]|[[-> _]|[-> _]]]; done.
      * intros [= <-]. right; left. split; [lia|done].
      * intros [[-> _]|[[_ ->]|[-> _]]]; done.
      * intros [= <-]. right; right. split; [lia|done].
      * intros [[-> _]|[[-> _]|[_ ->]]]; done.
      * done.
      * intros [[-> _]|[[-> _]|[-> _]]]; done.
  - intros e a s. unfold getMarketStatus.
    destruct (call_views e a) as [msg|v]; [discriminate|].
    destruct (v_isSettled v) eqn:Hs.
    + destruct (call_outcome e a) as [msg|n]; [discriminate|].
      destruct (_ <? _)%Z; [discriminate|].
      intros [= <-]. cbn. by exists n.
    + destruct (_ <? _)%Z; [discriminate|].
      by intros [= <-].
  - intros w a o. split.
    + unfold settle.
      destruct (has_error _); [done|]. destruct (negb _); [done|].
      destruct (isSettled _); [done|]. destruct (unencodable _); [done|].
      by destruct (send _ _ _).
    + intros tx.
      destruct (settle_ends wallet w a o)
        as [evs Hs _ _|evs msg e' _ _ _ Hs _ _ _ _|evs r e' _ _ _ Hs _ _ _
           |evs bad _ _ _ _ Hs _ _];
        cbn [fst snd]; rewrite Hs; intros Hin.
      * by apply elem_of_nil in Hin.
      * by apply list_elem_of_singleton in Hin.
      * by apply list_elem_of_singleton in Hin.
      * by apply elem_of_nil in Hin.
Qed.

End SettlerClaims.

Module SettlerExamples.
Import Sim Scenario.

Lemma failed_transaction_keeps_registry_witness :
  let run := settler_main wallet0 live_reverting (CmdSettle market0 1) in
  let unsent := settler_main wallet0 live (CmdSettle market0 300) in
  (sent (fst run) = [TxSettle market0 1 1771700000]
   ∧ failure (send (env live_reverting) wallet0 (TxSettle market0 1 1771700000))
     = Some "transaction execution reverted"
   ∧ last (fst run) = Some (Out (ErrTxFailed "transaction execution reverted"))
   ∧ markets_file (snd run) = markets_file live_reverting
   ∧ mappings_file (snd run) = mappings_file live_reverting)
  ∧ (tx_failed (fst unsent) = true
     ∧ sent (fst unsent) = []
     ∧ (∃ thrown, last (fst unsent) = Some (Out (ErrTxFailed thrown)))
     ∧ markets_file (snd unsent) = markets_file live
     ∧ mappings_file (snd unsent) = mappings_file live).
Proof.
  cbv zeta. split.
  - split; [reflexivity|]. split; [reflexivity|].
    apply (proj1 (failed_transaction_keeps_registry wallet0 live_reverting
                    (CmdSettle market0 1))
             (TxSettle market0 1 1771700000) "transaction execution reverted");
      reflexivity.
  - split; [reflexivity|]. split; [reflexivity|].
    apply (proj2 (failed_transaction_keeps_registry wallet0 live
                    (CmdSettle market0 300))).
    reflexivity.
Defined.

Lemma settle_requires_our_adjudicator_witness :
  call_views (env not_ours) market0 = inr (view0 false false stranger 1)
  ∧ toLowerCase stranger ≠ toLowerCase wallet0
  ∧ sent (fst (settle wallet0 not_ours market0 1)) = []
  ∧ snd (settle wallet0 not_ours market0 1) = not_ours.
Proof.
  split; [reflexivity|]. split; [discriminate|].
  apply (proj2 (settle_requires_our_adjudicator wallet0 not_ours market0 1)
           (view0 false false stranger 1)); [reflexivity|discriminate].
Defined.

(** The finalize guard on the same footing: a market finalized on chain
    gets no second finalize transaction. *)
Example finalize_on_finalized :
  finalize wallet0 finalized_on_chain market0
  = ([Out (LogFinalizing market0); Out WarnAlreadyFinalized], finalized_on_chain).
Proof. reflexivity. Qed.

Example settle_on_settled :
  settle wallet0 settled_on_chain market0 1
  = ([Out (LogSettling market0); Out (LogOutcome 1 (Some "YES"));
      Out (WarnAlreadySettled (Some "YES"))], settled_on_chain).
Proof. reflexivity. Qed.

End SettlerExamples.

(** ** Local status writes *)

Section StatusWrites.
Context {Env : Type} `{External Env}.
Variable wallet : address.

(** A confirmed [finalize] stores ["finalized"] in every local record of
    the market, whatever status the record had. *)
Lemma confirmed_finalize_overwrites_status (w : World Env) (a : address)
    (r : Receipt) (e' : Env) (id : string) (m : Market) :
  sent (fst (finalize wallet w a)) = [TxFinalize a] →
  send (env w) wallet (TxFinalize a) = Confirmed r e' →
  db_markets (loadMarkets (markets_file w)) !! id = Some m →
  m_market_address m = Some a →
  db_markets (loadMarkets (markets_file (snd (finalize wallet w a)))) !! id
  = Some (mark_finalized a (r_hash r) m)
  ∧ m_status (mark_finalized a (r_hash r) m) = "finalized".
Proof.
  intros Hsent Htx Hm Ha.
  destruct (finalize_ends wallet w a)
    as [evs Hs _ _|evs msg e1 _ _ _ _ Hfail _ _|evs r1 e1 _ _ _ _ Htx1 _];
    cbn [fst snd] in *.
  - congruence.
  - by rewrite Htx in Hfail.
  - rewrite Htx in Htx1. injection Htx1 as <- <-.
    cbn. rewrite lookup_fmap, Hm. cbn. split; [done|].
    unfold mark_finalized. by rewrite decide_True.
Qed.

(** A confirmed [settle] stores ["settling"] likewise. *)
Lemma confirmed_settle_overwrites_status (w : World Env) (a : address) (o : Z)
    (r : Receipt) (e' : Env) (id : string) (m : Market) :
  sent (fst (settle wallet w a o)) = [TxSettle a o (env_now (env w) / 1000)%Z] →
  send (env w) wallet (TxSettle a o (env_now (env w) / 1000)%Z) = Confirmed r e' →
  db_markets (loadMarkets (markets_file w)) !! id = Some m →
  m_market_address m = Some a →
  db_markets (loadMarkets (markets_file (snd (settle wallet w a o)))) !! id
  = Some (mark_settling a (r_hash r) m)
  ∧ m_status (mark_settling a (r_hash r) m) = "settling".
Proof.
  intros Hsent Htx Hm Ha.
  destruct (settle_ends wallet w a o)
    as [evs Hs _ _|evs msg e1 _ _ _ _ Hfail _ _ _|evs r1 e1 _ _ _ _ Htx1 _ _
       |evs bad _ _ _ _ Hs _ _];
    cbn [fst snd] in *.
  - congruence.
  - by rewrite Htx in Hfail.
  - rewrite Htx in Htx1. injection Htx1 as <- <-.
    cbn. rewrite lookup_fmap, Hm. cbn. split; [done|].
    unfold mark_settling. by rewrite decide_True.
  - congruence.
Qed.

End StatusWrites.

Module StatusExamples.
Import Sim Scenario.

(** C2, the code at the failing inputs.  A confirmed [settle] moves the
    local record from ["resolved"] to ["settling"], which is no status of
    the machine, and the [finalize] that follows moves it to
    ["finalized"]: ["settled"] is never stored.  A record that is still
    ["open"] when the market is settled on chain goes straight to
    ["finalized"].  None of these writes is a transition the machine
    allows, and none is rejected. *)
Theorem settler_status_writes_unchecked :
  let after_settle := snd (settle wallet0 live market0 1) in
  let after_finalize := snd (finalize wallet0 after_settle market0) in
  let skipped := snd (finalize wallet0 open_settled_on_chain market0) in
  (stored_status live = Some "resolved"
   ∧ stored_status after_settle = Some "settling"
   ∧ stored_status after_finalize = Some "finalized"
   ∧ ("settling" ∉ STATUSES)
   ∧ allowed_transition "resolved" "settling" = false
   ∧ allowed_transition "settling" "finalized" = false)
  ∧ (stored_status open_settled_on_chain = Some "open"
     ∧ stored_status skipped = Some "finalized"
     ∧ allowed_transition "open" "finalized" = false).
Proof.
  cbv zeta. repeat split; try (vm_compute; reflexivity).
  unfold STATUSES. intros Hin. elem_cases Hin.
Qed.

End StatusExamples.

(** ** The market creator *)

Lemma mapping_saved_app (l1 l2 : list Event) :
  mapping_saved (l1 ++ l2) = mapping_saved l1 || mapping_saved l2.
Proof. apply existsb_app. Qed.

(** Evaluate [sent] and [mapping_saved] on the events of one path. *)
Ltac path_events :=
  repeat (rewrite sent_app in * || rewrite mapping_saved_app in * );
  cbn [sent mapping_saved existsb is_mapping_saved app orb] in *.

Section Creator.
Context {Env : Type} `{External Env}.
Variable wallet : address.

Lemma create_ends w marketId :
  create_end w marketId (create wallet w marketId).
Proof.
  unfold create.
  destruct (db_markets _ !! marketId) as [market|] eqn:Hm; [|by constructor].
  destruct (mappings _ !! marketId) as [mp|] eqn:Hmp; [by constructor|].
  destruct (deadline_passed _ _); [by constructor|].
  destruct (call_balanceOf _ _ _) as [msg|balance]; [by constructor|].
  destruct (balance <? depositUsdc)%Z; [by constructor|].
  destruct (send (env w) wallet _) as [msg e1|h msg e1|r1 e1];
    [by eapply create_aborted..|].
  destruct (deadline_seconds market) as [d|]; [|by eapply create_aborted].
  destruct (unencodable _) as [bad|]; [by eapply create_aborted|].
  destruct (send e1 wallet _) as [msg e2|h msg e2|r2 e2];
    [by eapply create_aborted..|].
  destruct (r_created r2) as [marketAddress|]; [|by eapply create_aborted].
  by eapply create_saved.
Qed.

(** C3 (as amended).  [create] submits the on-chain creation only when
    the market is in the local registry, has no mapping yet, its deadline in
    whole seconds is later than the clock reading, the wallet's USDC balance
    covers the estimated deposit, and the approval was confirmed.
    Commitments, agents, a seven-day margin and the rule source are not
    consulted. *)
Theorem create_submission_gate
    (w : World Env) (marketId : string) (launchpad : address) (args : CreateArgs) :
  TxCreateMarket launchpad args ∈ sent (fst (create wallet w marketId)) →
  ∃ market balance,
    db_markets (loadMarkets (markets_file w)) !! marketId = Some market
    ∧ mappings (loadMappings (mappings_file w)) !! marketId = None
    ∧ deadline_seconds market = Some (ca_deadline args)
    ∧ (env_now (env w) / 1000 < ca_deadline args)%Z
    ∧ call_balanceOf (env w) MockUSDC wallet = inr balance
    ∧ (depositUsdc ≤ balance)%Z
    ∧ failure (send (env w) wallet (TxApprove MockUSDC LaunchpadEngine MaxUint256)) = None.
Proof.
  unfold create.
  destruct (db_markets _ !! marketId) as [market|] eqn:Hm; cbn [fst snd sent];
    [|by intros ?%elem_of_nil].
  destruct (mappings _ !! marketId) as [mp|] eqn:Hmp; cbn [fst snd sent];
    [by intros ?%elem_of_nil|].
  destruct (deadline_passed _ _) eqn:Hd; cbn [fst snd sent];
    [by intros ?%elem_of_nil|].
  destruct (call_balanceOf _ _ _) as [msg|balance] eqn:Hb; cbn [fst snd sent];
    [by intros ?%elem_of_nil|].
  destruct (balance <? depositUsdc)%Z eqn:Hlt; cbn [fst snd sent];
    [by intros ?%elem_of_nil|].
  apply Z.ltb_ge in Hlt.
  destruct (send (env w) wallet _) as [msg e1|h msg e1|r1 e1] eqn:Ha;
    cbn [fst snd sent app]; [by intros ?%list_elem_of_singleton..|].
  destruct (deadline_seconds market) as [d|] eqn:Hds; cbn [fst snd sent app];
    [|by intros ?%list_elem_of_singleton].
  cbn in Hd. apply Z.leb_gt in Hd.
  destruct (unencodable _) as [bad|] eqn:Henc; cbn [fst snd sent app];
    [by intros ?%list_elem_of_singleton|].
  assert (∀ evs : list Event,
            TxCreateMarket launchpad args ∈ sent evs → sent evs = [] → False) as Hnil.
  { intros evs Hin Hs. rewrite Hs in Hin. by apply elem_of_nil in Hin. }
  match goal with |- context [send e1 wallet (TxCreateMarket _ ?a)] =>
    assert (TxCreateMarket launchpad args ∈
              [TxApprove MockUSDC LaunchpadEngine MaxUint256;
               TxCreateMarket LaunchpadEngine a] →
            args = a) as Hargs
  end.
  { intros Hin. elem_cases Hin. congruence. }
  intros Hin. exists market, balance.
  assert (args = _) as -> by
    (apply Hargs; by repeat (destruct (send e1 _ _) || destruct (r_created _))).
  cbn [ca_deadline]. done.
Qed.

(** C6 (as amended).  When the loaded mappings already hold an entry for
    the market id, [create] sends no transaction and leaves the world, the
    mappings file with it, as it was: the check comes before the balance
    read and both sends.  Hence a [create] run right after one that saved
    its mapping sends nothing. *)
Theorem create_never_resubmits (w : World Env) (marketId : string) :
  let first := create wallet w marketId in
  let second := create wallet (snd first) marketId in
  (is_Some (mappings (loadMappings (mappings_file w)) !! marketId) →
     sent (fst first) = [] ∧ snd first = w)
  ∧ (mapping_saved (fst first) = true →
     sent (fst second) = [] ∧ snd second = snd first).
Proof.
  cbv zeta. split.
  - intros [mp Hmp].
    destruct (create_ends w marketId)
      as [evs Hs _|evs market e' _ Hnone _|evs market mp' e' _ Hnone _];
      cbn [fst snd]; [done|congruence..].
  - destruct (create_ends w marketId)
      as [evs _ Hf|evs market e' _ _ Hf|evs market mp e' Hm _ _];
      cbn [fst snd]; [congruence..|].
    intros _.
    match goal with |- context [create wallet ?w1 marketId] =>
      destruct (create_ends w1 marketId)
        as [evs' Hs' _|evs' market' e'' _ Hnone _|evs' market' mp' e'' _ Hnone _]
    end; cbn [fst snd]; [done|..];
      cbn in Hnone; by rewrite lookup_insert_eq in Hnone.
Qed.

(** What stands behind the counterexample to C3: these gates are all
    there is.  When they pass, on a clock after the epoch and a deadline
    within the range of a JS [Date], the creation is submitted. *)
Lemma create_submits (w : World Env) (marketId : string) (market : Market)
    (d balance : Z) (r : Receipt) (e1 : Env) :
  db_markets (loadMarkets (markets_file w)) !! marketId = Some market →
  mappings (loadMappings (mappings_file w)) !! marketId = None →
  deadline_seconds market = Some d →
  (env_now (env w) / 1000 < d)%Z →
  call_balanceOf (env w) MockUSDC wallet = inr balance →
  (depositUsdc ≤ balance)%Z →
  send (env w) wallet (TxApprove MockUSDC LaunchpadEngine MaxUint256) = Confirmed r e1 →
  (0 ≤ env_now (env w))%Z → (d ≤ 8640000000000)%Z →
  ∃ args, ca_deadline args = d
          ∧ TxCreateMarket LaunchpadEngine args ∈ sent (fst (create wallet w marketId)).
Proof.
  intros Hm Hmp Hd Hlt Hb Hle Ha Hclock Hdate. unfold create.
  rewrite Hm, Hmp, Hd, Hb, Ha. cbn [deadline_passed].
  rewrite (proj2 (Z.leb_gt _ _) Hlt), (proj2 (Z.ltb_ge _ _) Hle).
  unfold liquidity.
  rewrite createMarket_encodes; [|split; [by apply Z.div_pos|done]|done].
  eexists. split; [|destruct (send e1 _ _); [| |destruct (r_created _)];
                    cbn [fst]; path_events; apply list_elem_of_further, list_elem_of_here].
  done.
Qed.

End Creator.

(** ** Unreadable stores *)

Section Stores.
Context {Env : Type} `{External Env}.
Variable wallet : address.

(** The events of [create] depend on the mappings file only through
    [loadMappings]. *)
Lemma create_events_loaded (w w' : World Env) (marketId : string) :
  env w' = env w → markets_file w' = markets_file w →
  loadMappings (mappings_file w') = loadMappings (mappings_file w) →
  fst (create wallet w' marketId) = fst (create wallet w marketId).
Proof.
  intros He Hf Hl. unfold create. rewrite He, Hf, Hl.
  destruct (db_markets _ !! marketId) as [market|]; [|done].
  destruct (mappings _ !! marketId) as [mp|]; [done|].
  destruct (deadline_passed _ _); [done|].
  destruct (call_balanceOf _ _ _) as [msg|balance]; [done|].
  destruct (balance <? depositUsdc)%Z; [done|].
  destruct (send (env w) wallet _) as [msg e1|h msg e1|r1 e1]; [done..|].
  destruct (deadline_seconds market) as [d|]; [|done].
  destruct (unencodable _); [done|].
  destruct (send e1 wallet _) as [msg e2|h msg e2|r2 e2]; [done..|].
  by destruct (r_created r2).
Qed.

(** The events of a settler run do not depend on the local files. *)
Lemma settler_events_env (w w' : World Env) (cmd : Command) :
  env w' = env w →
  fst (settler_main wallet w' cmd) = fst (settler_main wallet w cmd).
Proof.
  intros He. destruct cmd as [a o|a]; cbn [settler_main];
    unfold settle, finalize; rewrite He.
  - destruct (has_error _); [done|]. destruct (negb _); [done|].
    destruct (isSettled _); [done|]. destruct (unencodable _); [done|].
    by destruct (send _ _ _).
  - destruct (has_error _); [done|]. destruct (negb _); [done|].
    destruct (isFinalized _); [done|]. by destruct (send _ _ _).
Qed.

(** C10.  A markets file or mappings file that is missing or does not
    parse loads as the empty structure, and the run goes on as over an
    empty store: the settler prints and sends what it would over
    [{ markets: {} }], and a confirmed transaction then stores exactly
    that; [create] finds no market; over an unreadable mappings file
    [create] prints and sends what it would over no mappings, and saving
    stores the new entry alone. *)
Theorem unreadable_store_loads_empty :
  (∀ f : File Db, unreadable f = true → loadMarkets f = no_markets)
  ∧ (∀ f : File Mappings, unreadable f = true → loadMappings f = no_mappings)
  ∧ (∀ (w : World Env) (cmd : Command),
       unreadable (markets_file w) = true →
       fst (settler_main wallet w cmd)
       = fst (settler_main wallet (saveMarkets w no_markets) cmd)
       ∧ (sent (fst (settler_main wallet w cmd)) ≠ [] →
          tx_failed (fst (settler_main wallet w cmd)) = false →
          markets_file (snd (settler_main wallet w cmd)) = Parsed no_markets))
  ∧ (∀ (w : World Env) (marketId : string),
       unreadable (markets_file w) = true →
       create wallet w marketId = ([Out (ErrMarketNotFound marketId)], w))
  ∧ (∀ (w : World Env) (marketId : string),
       unreadable (mappings_file w) = true →
       fst (create wallet w marketId)
       = fst (create wallet (saveMappings w no_mappings) marketId)
       ∧ (mapping_saved (fst (create wallet w marketId)) = true →
          ∃ mp, mappings_file (snd (create wallet w marketId))
                = Parsed {| mappings := {[ marketId := mp ]};
                            onchain_only := ∅ |})).
Proof.
  assert (∀ f : File Db, unreadable f = true → loadMarkets f = no_markets) as Hdb
    by (by intros [| |]).
  assert (∀ f : File Mappings, unreadable f = true → loadMappings f = no_mappings)
    as Hmp by (by intros [| |]).
  split; [done|]. split; [done|]. split; [|split].
  - intros w cmd Hu. split; [symmetry; by apply settler_events_env|].
    destruct cmd as [a o|a]; cbn [settler_main].
    + destruct (settle_ends wallet w a o)
        as [evs Hs _ _|evs msg e' _ _ _ _ _ _ Hf _|evs r e' _ _ _ _ _ _ _
           |evs bad _ _ _ _ _ _ Hf];
        cbn [fst snd]; [done|congruence| |congruence].
      intros _ _. cbn. rewrite (Hdb _ Hu). unfold update_markets. cbn.
      by rewrite fmap_empty.
    + destruct (finalize_ends wallet w a)
        as [evs Hs _ _|evs msg e' _ _ _ _ _ _ Hf|evs r e' _ _ _ _ _ _];
        cbn [fst snd]; [done|congruence|].
      intros _ _. cbn. rewrite (Hdb _ Hu). unfold update_markets. cbn.
      by rewrite fmap_empty.
  - intros w marketId Hu. unfold create. by rewrite (Hdb _ Hu).
  - intros w marketId Hu. split.
    + symmetry. apply create_events_loaded; [done..|]. cbn. by rewrite (Hmp _ Hu).
    + destruct (create_ends wallet w marketId)
        as [evs _ Hf|evs market e' _ _ Hf|evs market mp e' _ _ _];
        cbn [fst snd]; [congruence..|].
      intros _. exists mp. cbn. rewrite (Hmp _ Hu). unfold set_mapping. cbn.
      by rewrite insert_empty.
Qed.

End Stores.

Module CreatorExamples.
Import Sim Scenario.

(** C3, what fails in the claim as stated: a market with no commitment,
    a manual rule and a deadline one second ahead is not eligible, and
    [create] approves and submits its on-chain creation. *)
Lemma ineligible_market_is_created :
  db_markets (loadMarkets (markets_file before_graduation)) !! "market_abc123"
  = Some ungraduated
  ∧ eligible ungraduated (env_now (env before_graduation)) = false
  ∧ length (m_commitments ungraduated) = 0%nat
  ∧ m_rule_source ungraduated = Some "manual"
  ∧ sent (fst (create wallet0 before_graduation "market_abc123"))
    = [TxApprove MockUSDC LaunchpadEngine MaxUint256;
       TxCreateMarket LaunchpadEngine args0].
Proof. repeat split; reflexivity. Qed.

Lemma create_submission_gate_witness :
  ∃ market balance,
    db_markets (loadMarkets (markets_file before_graduation)) !! "market_abc123"
    = Some market
    ∧ mappings (loadMappings (mappings_file before_graduation)) !! "market_abc123"
      = None
    ∧ deadline_seconds market = Some (ca_deadline args0)
    ∧ (env_now (env before_graduation) / 1000 < ca_deadline args0)%Z
    ∧ call_balanceOf (env before_graduation) MockUSDC wallet0 = inr balance
    ∧ (depositUsdc ≤ balance)%Z
    ∧ failure (send (env before_graduation) wallet0
                 (TxApprove MockUSDC LaunchpadEngine MaxUint256)) = None.
Proof.
  apply (create_submission_gate wallet0 before_graduation "market_abc123"
           LaunchpadEngine args0).
  assert (sent (fst (create wallet0 before_graduation "market_abc123"))
          = [TxApprove MockUSDC LaunchpadEngine MaxUint256;
             TxCreateMarket LaunchpadEngine args0]) as -> by reflexivity.
  apply list_elem_of_further, list_elem_of_here.
Defined.

(** The world after that run: the mapping is there, and only it. *)
Example mapping_after_create :
  mappings_file (snd (create wallet0 before_graduation "market_abc123"))
  = Parsed {| mappings :=
                {[ "market_abc123" :=
                     {| mp_moltbook_id := "market_abc123";
                        mp_moltbook_post_id := Some "6f0ed709";
                        mp_chain := "monad-testnet";
                        mp_chain_id := 10143;
                        mp_market_address := new_market;
                        mp_question := "@SoothSayer Will BTC hit $75,000 by Feb 20, 2026?";
                        mp_status := "live";
                        mp_created_at := 1771700000123 |} ]};
              onchain_only := ∅ |}.
Proof. reflexivity. Qed.

(** C6, what fails in the claim as stated: a second [create] that starts
    after the first one's transactions and before its mapping is written
    reads the files as the first did, finds no mapping, and submits the
    creation of the same market a second time. *)
Lemma creation_submitted_twice :
  let first := create wallet0 before_graduation "market_abc123" in
  let racing := with_env before_graduation (env (snd first)) in
  let second := create wallet0 racing "market_abc123" in
  mappings (loadMappings (mappings_file racing)) !! "market_abc123" = None
  ∧ sent (fst first)
    = [TxApprove MockUSDC LaunchpadEngine MaxUint256;
       TxCreateMarket LaunchpadEngine args0]
  ∧ sent (fst second)
    = [TxApprove MockUSDC LaunchpadEngine MaxUint256;
       TxCreateMarket LaunchpadEngine args0].
Proof. cbv zeta. repeat split; vm_compute; reflexivity. Qed.

Lemma create_never_resubmits_witness :
  let first := create wallet0 before_graduation "market_abc123" in
  let second := create wallet0 (snd first) "market_abc123" in
  mapping_saved (fst first) = true
  ∧ is_Some (mappings (loadMappings (mappings_file (snd first))) !! "market_abc123")
  ∧ fst second = [Out (LogAlreadySynced new_market)]
  ∧ sent (fst second) = [] ∧ snd second = snd first.
Proof.
  cbv zeta. split; [reflexivity|]. split; [vm_compute; by eexists|].
  split; [reflexivity|].
  apply (proj2 (create_never_resubmits wallet0 before_graduation "market_abc123")).
  reflexivity.
Defined.

(** Over an unreadable markets file a confirmed settlement stores the
    empty registry. *)
Example settle_over_unreadable_markets :
  markets_file
    (snd (settle wallet0
            {| env := env live; markets_file := Unparseable "{ markets: ";
               mappings_file := Missing |} market0 1))
  = Parsed no_markets.
Proof. reflexivity. Qed.

End CreatorExamples.

(** ** Scoring *)

(** X17.  A confidence within 0..100 scores within 0..1. *)
Lemma brier_bounds (confidence : Z) (o : bool) :
  (0 ≤ confidence ≤ 100)%Z →
  (0 <= brier confidence (if o then 1 else 0) <= 1)%Q.
Proof.
  intros Hc. unfold brier, Qle, Qminus, Qplus, Qopp, Qpower, Qpower_positive,
    pow_pos, Qmult. destruct o; cbn; nia.
Qed.

(** The score of the commit format is the complement of the loss of the
    design document. *)
Lemma brier_complement (confidence : Z) (o : Q) :
  (brier confidence o == 1 - brier_loss (confidence # 100) o)%Q.
Proof. reflexivity. Qed.

(** The landmarks the commit format lists hold for either position: a
    certain and right commitment scores 1, a certain and wrong one 0, and
    a commitment at 50 scores 0.75. *)
Lemma score_landmarks (agent : string) (p : Position) (winning : Outcome) :
  winning ≠ OutINVALID →
  scores (commit agent p 100) winning
    (if position_matches p winning then 1 else 0)%Q
  ∧ scores (commit agent p 50) winning 0.75%Q.
Proof. destruct p, winning; intros Hw; try done; by vm_compute. Qed.

(** C9.  On a binary outcome the score of a commitment with confidence
    [c] is [1 - (c/100 - o)²], [o] being 1 when the position is the winning
    outcome and 0 otherwise; YES at 75 scores 0.9375 when YES wins and
    0.4375 when NO wins, and YES at 50 scores 0.75 either way. *)
Theorem brier_score_of_commitment :
  (∀ (c : Commitment) (winning : Outcome),
     winning ≠ OutINVALID →
     scores c winning
       (1 - (inject_Z (c_confidence c) / 100
             - (if position_matches (c_position c) winning then 1 else 0)) ^ 2)%Q)
  ∧ scores (commit "a" PosYES 75) OutYES 0.9375%Q
  ∧ scores (commit "a" PosYES 75) OutNO 0.4375%Q
  ∧ scores (commit "a" PosYES 50) OutYES 0.75%Q
  ∧ scores (commit "a" PosYES 50) OutNO 0.75%Q.
Proof.
  split; [|by vm_compute].
  intros c winning Hw. unfold scores, score, brier.
  assert ((c_confidence c # 100) == inject_Z (c_confidence c) / 100)%Q as Hp.
  { unfold Qeq, Qdiv, Qmult, Qinv, inject_Z. cbn. lia. }
  destruct winning; [| |done]; by rewrite Hp.
Qed.

(** ** The question-metadata parser *)

Lemma tag_open_Some (c : option str) (t : str) : tag_open c = Some t → c = Some t.
Proof. destruct c as [[|x r]|]; cbn; congruence. Qed.

(** A line that starts with the section sign has a first word. *)
Lemma split_once_tag_line (line : str) :
  startswith [SECTION_SIGN] line = true →
  ∃ part0, split_once line = [part0] ∨ ∃ part1, split_once line = [part0; part1].
Proof.
  destruct line as [|c r]; [done|]. cbn [startswith].
  rewrite andb_true_r. intros <-%N.eqb_eq.
  unfold split_once, lstrip. cbn [dropwhile].
  change (isspace SECTION_SIGN) with false. cbn iota.
  destruct (dropwhile isspace _); eauto.
Qed.

Lemma startswith_two (line : str) :
  startswith [SECTION_SIGN; SECTION_SIGN] line = true →
  startswith [SECTION_SIGN] line = true.
Proof.
  destruct line as [|c r]; [done|]. cbn [startswith].
  intros [-> _]%andb_true_iff. done.
Qed.

(** [_save_tag] on a non-empty content stores one value under the tag. *)
Lemma save_tag_nonempty (res : gmap str TagValue) (tag c0 : str) (content : list str) :
  ∃ v, _save_tag res tag (c0 :: content) = inr (<[tag := v]> res).
Proof.
  unfold _save_tag. cbn [first_line].
  destruct (single_plain _); [by eexists|].
  destruct (decide _); by eexists.
Qed.

(** The closing of a block does not raise: it leaves the dictionary, or
    stores one value under the open tag. *)
Lemma flush_stores (st : ParseState) :
  flush st = inr (result st)
  ∨ ∃ tag v, current_tag st = Some tag ∧ flush st = inr (<[tag := v]> (result st)).
Proof.
  unfold flush. destruct (tag_open _) as [tag|] eqn:Ht; [|by left].
  destruct (current_content st) as [|c0 content]; [by left|].
  right. destruct (save_tag_nonempty (result st) tag c0 content) as [v Hv].
  exists tag, v. split; [by apply tag_open_Some|done].
Qed.

Lemma opens_subtag line :
  startswith [SECTION_SIGN; SECTION_SIGN] line = true → opens line = None.
Proof. unfold opens. by intros ->. Qed.

Lemma opens_content line :
  startswith [SECTION_SIGN] line = false → opens line = None.
Proof.
  unfold opens. intros H1.
  destruct (startswith [SECTION_SIGN; SECTION_SIGN] line) eqn:H2; [done|].
  by rewrite H1.
Qed.

Lemma opens_tag line part0 tl :
  startswith [SECTION_SIGN; SECTION_SIGN] line = false →
  startswith [SECTION_SIGN] line = true →
  split_once line = part0 :: tl →
  opens line = Some (drop 1 part0).
Proof. unfold opens. by intros -> -> ->. Qed.

Lemma opened_cons (line : str) (rest : list str) :
  omap opens (line :: rest)
  = from_option (λ t, t :: omap opens rest) (omap opens rest) (opens line).
Proof. cbn. by destruct (opens line). Qed.

Lemma fresh_tags_insert_block st tag d future :
  current_tag st = Some tag →
  fresh_tags st future →
  fresh_tags {| result := <[tag := Block d]> (result st);
                current_tag := current_tag st;
                current_content := current_content st |} future.
Proof.
  intros Ht (Hscalar & Hcur & Hnd). split; [|done]. cbn. intros k s Hk.
  destruct (decide (tag = k)) as [->|Hne]; [by rewrite lookup_insert_eq in Hk|].
  rewrite lookup_insert_ne in Hk by done. eauto.
Qed.

Lemma parse_line_fresh (st : ParseState) (line : str) (rest : list str) :
  fresh_tags st (omap opens (line :: rest)) →
  ∃ st', parse_line st line = inr st' ∧ fresh_tags st' (omap opens rest).
Proof.
  intros Hst. unfold parse_line. rewrite opened_cons in Hst.
  destruct (startswith [SECTION_SIGN; SECTION_SIGN] line) eqn:H2.
  - (* a sub-tag line *)
    rewrite (opens_subtag _ H2) in Hst. cbn [from_option] in Hst.
    destruct (split_once_tag_line line (startswith_two _ H2))
      as [part0 [->|[part1 ->]]]; [by exists st|].
    destruct (tag_open (current_tag st)) as [tag|] eqn:Ht; [|by exists st].
    apply tag_open_Some in Ht.
    destruct (result st !! tag) as [[s|d]|] eqn:Hr.
    + destruct Hst as (Hscalar & _). by destruct (Hscalar _ _ Hr).
    + eexists. split; [done|]. by apply fresh_tags_insert_block.
    + eexists. split; [done|]. by apply fresh_tags_insert_block.
  - destruct (startswith [SECTION_SIGN] line) eqn:H1.
    + (* a line that opens a block *)
      assert (∃ part0 tl, split_once line = part0 :: tl
                          ∧ (tl = [] ∨ ∃ part1, tl = [part1])) as (part0 & tl & Hsp & Htl).
      { destruct (split_once_tag_line line H1) as [part0 [->|[part1 ->]]]; eauto 6. }
      rewrite (opens_tag _ _ _ H2 H1 Hsp) in Hst. cbn [from_option] in Hst. rewrite Hsp.
      destruct Hst as (Hscalar & Hcur & [Hnew Hnd]%NoDup_cons).
      assert (∀ saved, flush st = inr saved →
                ∀ k s, saved !! k = Some (Scalar s) →
                       Some (drop 1 part0) ≠ Some k ∧ k ∉ omap opens rest) as Hsaved.
      { intros saved Hfl k s Hk.
        destruct (flush_stores st) as [Hsame|(tag & v & Htag & Hins)].
        - rewrite Hsame in Hfl. injection Hfl as <-.
          destruct (Hscalar _ _ Hk) as [_ Hk'].
          apply not_elem_of_cons in Hk' as [? ?]. split; [by intros [= <-]|done].
        - rewrite Hins in Hfl. injection Hfl as <-.
          destruct (decide (tag = k)) as [->|Hne].
          + specialize (Hcur _ Htag). apply not_elem_of_cons in Hcur as [? ?].
            split; [by intros [= <-]|done].
          + rewrite lookup_insert_ne in Hk by done.
            destruct (Hscalar _ _ Hk) as [_ Hk'].
            apply not_elem_of_cons in Hk' as [? ?]. split; [by intros [= <-]|done]. }
      destruct (flush_stores st) as [Hfl|(tag & v & _ & Hfl)]; rewrite Hfl in *;
        destruct Htl as [->|[part1 ->]]; eexists; (split; [done|]);
        (split; [by apply Hsaved|]); (split; [|done]); cbn;
        by intros t [= <-].
    + (* a content line *)
      rewrite (opens_content _ H1) in Hst. cbn [from_option] in Hst.
      eexists. split; [done|]. done.
Qed.

Lemma parse_lines_fresh (lines : list str) (st : ParseState) :
  fresh_tags st (omap opens lines) →
  ∃ st', parse_lines st lines = inr st'.
Proof.
  revert st. induction lines as [|line rest IH]; intros st Hst; cbn [parse_lines].
  - by exists st.
  - destruct (parse_line_fresh st line rest Hst) as (st1 & -> & Hst1). by apply IH.
Qed.

(** What the dictionary holds was opened by a line of the text. *)
Lemma parse_line_keys (st st' : ParseState) (line : str) :
  parse_line st line = inr st' →
  (∀ k, is_Some (result st' !! k) →
        is_Some (result st !! k) ∨ current_tag st = Some k)
  ∧ (∀ k, current_tag st' = Some k →
          current_tag st = Some k ∨ opens line = Some k).
Proof.
  unfold parse_line, opens.
  destruct (startswith [SECTION_SIGN; SECTION_SIGN] line) eqn:H2.
  - destruct (split_once line) as [|part0 [|part1 tl]]; [done|by intros [= <-]; eauto|].
    destruct (tag_open (current_tag st)) as [tag|] eqn:Ht; [|by intros [= <-]; eauto].
    apply tag_open_Some in Ht.
    destruct (result st !! tag) as [[s|d]|] eqn:Hr; [done|..];
      intros [= <-]; cbn; (split; [|by eauto]); intros k Hk;
      (destruct (decide (tag = k)) as [->|Hne]; [by right|]);
      rewrite lookup_insert_ne in Hk by done; by left.
  - destruct (startswith [SECTION_SIGN] line) eqn:H1.
    + destruct (flush_stores st) as [Hfl|(tag & v & Htag & Hfl)]; rewrite Hfl;
        (destruct (split_once line) as [|part0 [|part1 tl]]; [done|..]);
        intros [= <-]; cbn; (split; [|by intros k [= <-]; right]); intros k Hk;
        try (by left);
        (destruct (decide (tag = k)) as [->|Hne]; [by right|]);
        rewrite lookup_insert_ne in Hk by done; by left.
    + intros [= <-]. cbn. eauto.
Qed.

Lemma parse_lines_keys (lines : list str) (st st' : ParseState) :
  parse_lines st lines = inr st' →
  (∀ k, is_Some (result st' !! k) →
        is_Some (result st !! k) ∨ current_tag st = Some k ∨ k ∈ omap opens lines)
  ∧ (∀ k, current_tag st' = Some k →
          current_tag st = Some k ∨ k ∈ omap opens lines).
Proof.
  revert st. induction lines as [|line rest IH]; intros st; cbn [parse_lines].
  - intros [= <-]. eauto.
  - rewrite opened_cons.
    destruct (parse_line st line) as [e|st1] eqn:H1; [done|]. intros Hrest.
    destruct (parse_line_keys _ _ _ H1) as [Hk1 Hc1].
    destruct (IH _ Hrest) as [Hk Hc].
    assert (∀ k, k ∈ omap opens rest →
                 k ∈ from_option (λ t, t :: omap opens rest) (omap opens rest)
                       (opens line)) as Hin.
    { intros k Hk'. destruct (opens line); cbn; [by right|done]. }
    assert (∀ k, current_tag st1 = Some k →
                 current_tag st = Some k
                 ∨ k ∈ from_option (λ t, t :: omap opens rest) (omap opens rest)
                         (opens line)) as Hc1'.
    { intros k Hk'. destruct (Hc1 _ Hk') as [Hl|Hr]; [by left|right].
      rewrite Hr. cbn. left. }
    split.
    + intros k Hk'. destruct (Hk _ Hk') as [Hr|[Hcu|Ho]]; [|by eauto|by eauto].
      destruct (Hk1 _ Hr); eauto.
    + intros k Hk'. destruct (Hc _ Hk') as [Hcu|Ho]; eauto.
Qed.

(** C8 (as amended).  [parse_question] checks for no required tag and no
    rule field: on every text that opens no tag twice it returns a
    dictionary, and whatever it returns holds only tags the text opens, so
    a text without a [question] or [rule] block parses to a dictionary
    without that key. *)
Theorem parse_question_accepts (raw : str) :
  NoDup (opened_tags raw) →
  ∃ parsed,
    parse_question raw = inr parsed
    ∧ ∀ tag, is_Some (parsed !! tag) → tag ∈ opened_tags raw.
Proof.
  intros Hnd. unfold parse_question, opened_tags in *.
  destruct (parse_lines_fresh (splitlines (strip raw)) initial) as [st Hst].
  { split; [|split]; [|done..]. intros k s Hk. cbn in Hk.
    by rewrite lookup_empty in Hk. }
  rewrite Hst. destruct (parse_lines_keys _ _ _ Hst) as [Hk Hc].
  assert (∀ k, is_Some (result st !! k) → k ∈ omap opens (splitlines (strip raw)))
    as Hk'.
  { intros k Hr. destruct (Hk _ Hr) as [Hi|[Hi|Hi]]; [|done..].
    cbn in Hi. rewrite lookup_empty in Hi. by destruct Hi. }
  assert (∀ k, current_tag st = Some k → k ∈ omap opens (splitlines (strip raw)))
    as Hc'.
  { intros k Hcu. by destruct (Hc _ Hcu) as [Hi|Hi]. }
  destruct (flush_stores st) as [Hfl|(tag & v & Htag & Hfl)]; rewrite Hfl;
    eexists; (split; [done|]); intros k Hin; [by apply Hk'|].
  destruct (decide (tag = k)) as [->|Hne]; [by apply Hc'|].
  rewrite lookup_insert_ne in Hin by done. by apply Hk'.
Qed.

Module ParserExamples.
Import Texts.

(** C8, what fails in the claim as stated: the empty text, a text without
    a rule, and a rule without [source] whose target is no number all parse
    to a dictionary; nothing is raised. *)
Lemma parse_accepts_missing_required :
  parse_question [] = inr ∅
  ∧ parse_question no_rule
    = inr {[ QUESTION := Scalar (utf8 "Will ETH hit $5,000 by June 2026?") ]}
  ∧ parse_question rule_without_source
    = inr {[ QUESTION := Scalar (utf8 "Will ETH hit $5,000 by June 2026?");
             RULE := Block {[ utf8 "op" := EStr (utf8 "gte");
                              utf8 "target" := EStr (utf8 "lots") ]} ]}.
Proof. repeat split; vm_compute; reflexivity. Qed.

Lemma parse_question_accepts_witness :
  ∃ parsed,
    parse_question crypto = inr parsed
    ∧ ∀ tag, is_Some (parsed !! tag) → tag ∈ opened_tags crypto.
Proof.
  apply parse_question_accepts.
  apply (bool_decide_unpack _). vm_compute. exact I.
Defined.

(** The three examples of the format document.  The closing of the rule
    block stores its key/value lines over the sub-tag recorded before. *)
Example parse_crypto :
  parse_question crypto
  = inr {[ QUESTION := Scalar (utf8 "Will BTC hit $75,000 by Feb 20, 2026?");
           RULE := Block {[ utf8 "source" := EStr (utf8 "coingecko:bitcoin");
                            utf8 "metric" := EStr (utf8 "price_usd");
                            utf8 "op" := EStr (utf8 "gte");
                            utf8 "target" := EStr (utf8 "75000") ]} ]}.
Proof. vm_compute. reflexivity. Qed.

Example parse_manual :
  parse_question manual
  = inr {[ QUESTION := Scalar (utf8 "Will OpenAI announce GPT-5 by March 31, 2026?");
           RULE := Block {[ utf8 "source" := EStr (utf8 "manual");
                            utf8 "resolver" := EStr (utf8 "soothsayer") ]} ]}.
Proof. vm_compute. reflexivity. Qed.

Example parse_minimal :
  parse_question minimal
  = inr {[ QUESTION := Scalar (utf8 "Will ETH hit $5,000 by June 2026?");
           RULE := Block {[ utf8 "source" := EStr (utf8 "coingecko:ethereum");
                            utf8 "op" := EStr (utf8 "gte");
                            utf8 "target" := EStr (utf8 "5000") ]} ]}.
Proof. vm_compute. reflexivity. Qed.

(** A sub-tag under a tag opened for the second time, whose first block
    was stored as a string: the item assignment raises. *)
Example parse_reopened : parse_question reopened = inl TypeError.
Proof. vm_compute. reflexivity. Qed.

End ParserExamples.

(** * Further properties of the scripts *)

(** ** The settler: reads, guards and the registry *)

Section SettlerMore.
Context {Env : Type} `{External Env}.
Variable wallet : address.

(** A status from the [catch] stops both commands before the contract
    call, whatever its message. *)
Lemma status_error_stops (w : World Env) (cmd : Command) (a' : address) (msg : string) :
  getMarketStatus wallet (env w) (target cmd) = StatusError a' msg →
  sent (fst (settler_main wallet w cmd)) = [] ∧ snd (settler_main wallet w cmd) = w.
Proof.
  intros Hst. destruct cmd as [a o|a]; cbn [settler_main target] in *.
  - destruct (settle_ends wallet w a o)
      as [evs Hs _ _|evs m e' _ Ho _ _ _ _ _ _|evs r e' _ Ho _ _ _ _ _
         |evs bad _ Ho _ _ _ _ _];
      cbn [fst snd]; [done|..]; by rewrite Hst in Ho.
  - destruct (finalize_ends wallet w a)
      as [evs Hs _ _|evs m e' _ Ho _ _ _ _ _|evs r e' _ Ho _ _ _ _];
      cbn [fst snd]; [done|..]; by rewrite Hst in Ho.
Qed.

(** X1.  When a view call throws, or the market is settled and the outcome
    call throws, [settle] and [finalize] send nothing and leave the world
    as it was. *)
Theorem read_failure_sends_nothing (w : World Env) (cmd : Command) :
  (∃ msg, call_views (env w) (target cmd) = inl msg)
  ∨ (∃ v msg, call_views (env w) (target cmd) = inr v
              ∧ v_isSettled v = true
              ∧ call_outcome (env w) (target cmd) = inl msg) →
  sent (fst (settler_main wallet w cmd)) = [] ∧ snd (settler_main wallet w cmd) = w.
Proof.
  intros Hread.
  assert (∃ msg, getMarketStatus wallet (env w) (target cmd)
                 = StatusError (target cmd) msg) as [msg Hst].
  { unfold getMarketStatus.
    destruct Hread as [[msg ->]|(v & msg & -> & -> & ->)]; by eexists. }
  by eapply status_error_stops.
Qed.

(** X2.  A market whose deadline, in seconds, is past the last instant a JS
    [Date] holds cannot be settled or finalized through the script: the
    status never forms, and nothing is sent. *)
Theorem deadline_out_of_range_sends_nothing
    (w : World Env) (cmd : Command) (v : MarketView) :
  call_views (env w) (target cmd) = inr v →
  (8640000000000 < v_deadline v)%Z →
  sent (fst (settler_main wallet w cmd)) = [] ∧ snd (settler_main wallet w cmd) = w.
Proof.
  intros Hv Hd.
  assert (∃ msg, getMarketStatus wallet (env w) (target cmd)
                 = StatusError (target cmd) msg) as [msg Hst].
  { unfold getMarketStatus. rewrite Hv.
    assert ((MAX_TIME_VALUE <? Z.abs (v_deadline v * 1000))%Z = true) as ->.
    { apply Z.ltb_lt. unfold MAX_TIME_VALUE. lia. }
    destruct (v_isSettled v); [destruct (call_outcome _ _)|]; by eexists. }
  by eapply status_error_stops.
Qed.

(** X3.  What a run sends, exactly.  [settle] sends its one transaction
    when the status formed, the adjudicator is the wallet, the market is
    not settled and the arguments encode, that is, the outcome is a
    [uint8] and the time in seconds a [uint64]; [finalize] sends its one
    transaction when the status formed and the market is settled and not
    finalized, whoever its adjudicator is.  Otherwise nothing is sent. *)
Theorem settler_sends_exactly (w : World Env) (cmd : Command) :
  match cmd with
  | CmdSettle a o =>
    ((∃ s, getMarketStatus wallet (env w) a = StatusOk s
           ∧ st_isOurs s = true ∧ st_isSettled s = false)
     ∧ (0 ≤ o ≤ 255)%Z ∧ (0 ≤ env_now (env w) / 1000 < 2 ^ 64)%Z)
    ∧ sent (fst (settler_main wallet w cmd))
      = [TxSettle a o (env_now (env w) / 1000)%Z]
    ∨ ¬ ((∃ s, getMarketStatus wallet (env w) a = StatusOk s
               ∧ st_isOurs s = true ∧ st_isSettled s = false)
         ∧ (0 ≤ o ≤ 255)%Z ∧ (0 ≤ env_now (env w) / 1000 < 2 ^ 64)%Z)
      ∧ sent (fst (settler_main wallet w cmd)) = []
  | CmdFinalize a =>
    (∃ s, getMarketStatus wallet (env w) a = StatusOk s
          ∧ st_isSettled s = true ∧ st_isFinalized s = false)
    ∧ sent (fst (settler_main wallet w cmd)) = [TxFinalize a]
    ∨ (¬ ∃ s, getMarketStatus wallet (env w) a = StatusOk s
              ∧ st_isSettled s = true ∧ st_isFinalized s = false)
      ∧ sent (fst (settler_main wallet w cmd)) = []
  end.
Proof.
  destruct cmd as [a o|a]; cbn [settler_main].
  - destruct (settle_ends wallet w a o)
      as [evs Hs _ Hg|evs m e' _ Ho Hst Hs _ _ _ Henc|evs r e' _ Ho Hst Hs _ _ Henc
         |evs bad _ _ _ Henc Hs _ _];
      cbn [fst snd].
    + right. split; [|done]. intros ((s & Hok & Hours & Hset) & _).
      rewrite Hok in Hg. cbn in Hg. destruct Hg as [?|[?|?]]; congruence.
    + left. split; [|done]. split; [|by apply (settle_encodes a)].
      destruct (getMarketStatus wallet (env w) a) as [?|s]; [done|]. by exists s.
    + left. split; [|done]. split; [|by apply (settle_encodes a)].
      destruct (getMarketStatus wallet (env w) a) as [?|s]; [done|]. by exists s.
    + right. split; [|done]. intros (_ & Hrange).
      apply (settle_encodes a) in Hrange. congruence.
  - destruct (finalize_ends wallet w a)
      as [evs Hs _ Hg|evs m e' _ Hst Hf Hs _ _ _|evs r e' _ Hst Hf Hs _ _];
      cbn [fst snd].
    + right. split; [|done]. intros (s & Hok & Hset & Hfin).
      rewrite Hok in Hg. cbn in Hg. destruct Hg as [?|[?|?]]; congruence.
    + left. split; [|done].
      destruct (getMarketStatus wallet (env w) a) as [?|s]; [done|]. by exists s.
    + left. split; [|done].
      destruct (getMarketStatus wallet (env w) a) as [?|s]; [done|]. by exists s.
Qed.

End SettlerMore.

Lemma mark_settling_sync (a : address) (h : string) (m : Market) :
  same_but_sync m (mark_settling a h m)
  ∧ m_finalized_tx (mark_settling a h m) = m_finalized_tx m
  ∧ (m_market_address m ≠ Some a → mark_settling a h m = m).
Proof.
  unfold mark_settling, same_but_sync. destruct (decide _); cbn; naive_solver.
Qed.

Lemma mark_finalized_sync (a : address) (h : string) (m : Market) :
  same_but_sync m (mark_finalized a h m)
  ∧ m_settled_tx (mark_finalized a h m) = m_settled_tx m
  ∧ (m_market_address m ≠ Some a → mark_finalized a h m = m).
Proof.
  unfold mark_finalized, same_but_sync. destruct (decide _); cbn; naive_solver.
Qed.

Lemma same_but_sync_refl (m : Market) : same_but_sync m m.
Proof. by repeat split. Qed.

Lemma same_but_sync_trans (m1 m2 m3 : Market) :
  same_but_sync m1 m2 → same_but_sync m2 m3 → same_but_sync m1 m3.
Proof.
  intros (?&?&?&?&?&?&?) (?&?&?&?&?&?&?). repeat split; congruence.
Qed.

Lemma mark_settling_hit (a : address) (h : string) (m : Market) :
  m_market_address m = Some a →
  m_status (mark_settling a h m) = "settling"
  ∧ m_settled_tx (mark_settling a h m) = Some h.
Proof. intros Ha. unfold mark_settling. by rewrite decide_True. Qed.

Lemma mark_finalized_hit (a : address) (h : string) (m : Market) :
  m_market_address m = Some a →
  m_status (mark_finalized a h m) = "finalized"
  ∧ m_finalized_tx (mark_finalized a h m) = Some h.
Proof. intros Ha. unfold mark_finalized. by rewrite decide_True. Qed.

Section SettlerRegistry.
Context {Env : Type} `{External Env}.
Variable wallet : address.

(** X4.  A settler run neither adds nor removes a market record and keeps
    the version tag; in a record it changes at most the status and the two
    transaction hashes, and only in the records of the market it was
    given; [settle] leaves [finalized_tx] and [finalize] leaves
    [settled_tx] as they were. *)
Theorem settler_keeps_records (w : World Env) (cmd : Command) (id : string) :
  let before := loadMarkets (markets_file w) in
  let after := loadMarkets (markets_file (snd (settler_main wallet w cmd))) in
  db_version after = db_version before
  ∧ match db_markets before !! id with
    | None => db_markets after !! id = None
    | Some m =>
      ∃ m', db_markets after !! id = Some m'
            ∧ same_but_sync m m'
            ∧ (m_market_address m ≠ Some (target cmd) → m' = m)
            ∧ match cmd with
              | CmdSettle _ _ => m_finalized_tx m' = m_finalized_tx m
              | CmdFinalize _ => m_settled_tx m' = m_settled_tx m
              end
    end.
Proof.
  cbv zeta.
  assert (∀ m : Market, ∃ m', Some m = Some m' ∧ same_but_sync m m'
            ∧ (m_market_address m ≠ Some (target cmd) → m' = m)
            ∧ match cmd with
              | CmdSettle _ _ => m_finalized_tx m' = m_finalized_tx m
              | CmdFinalize _ => m_settled_tx m' = m_settled_tx m
              end) as Hsame.
  { intros m. exists m. split; [done|]. split; [apply same_but_sync_refl|].
    split; [done|]. by destruct cmd. }
  destruct cmd as [a o|a]; cbn [settler_main target] in *.
  - destruct (settle_ends wallet w a o)
      as [evs _ _ _|evs m e' _ _ _ _ _ _ _ _|evs r e' _ _ _ _ _ _ _
         |evs bad _ _ _ _ _ _ _]; cbn [fst snd].
    + split; [done|]. destruct (_ !! id); [apply Hsame|done].
    + split; [done|]. cbn. destruct (_ !! id); [apply Hsame|done].
    + split; [done|]. cbn. rewrite lookup_fmap.
      destruct (_ !! id) as [m|]; [|done]. cbn.
      destruct (mark_settling_sync a (r_hash r) m) as (? & ? & ?). eauto.
    + split; [done|]. destruct (_ !! id); [apply Hsame|done].
  - destruct (finalize_ends wallet w a)
      as [evs _ _ _|evs m e' _ _ _ _ _ _ _|evs r e' _ _ _ _ _ _]; cbn [fst snd].
    + split; [done|]. destruct (_ !! id); [apply Hsame|done].
    + split; [done|]. cbn. destruct (_ !! id); [apply Hsame|done].
    + split; [done|]. cbn. rewrite lookup_fmap.
      destruct (_ !! id) as [m|]; [|done]. cbn.
      destruct (mark_finalized_sync a (r_hash r) m) as (? & ? & ?). eauto.
Qed.

(** X5.  A confirmed [settle] followed by a confirmed [finalize] leaves every
    local record of the market with status ["finalized"] and both
    transaction hashes, the first run's under [settled_tx] and the second
    run's under [finalized_tx]; its other fields are as before. *)
Theorem settle_then_finalize_record
    (w : World Env) (a : address) (o : Z) (r1 r2 : Receipt) (e1 e2 : Env)
    (id : string) (m : Market) :
  let after_settle := snd (settle wallet w a o) in
  let after_finalize := snd (finalize wallet after_settle a) in
  sent (fst (settle wallet w a o)) = [TxSettle a o (env_now (env w) / 1000)%Z] →
  send (env w) wallet (TxSettle a o (env_now (env w) / 1000)%Z) = Confirmed r1 e1 →
  sent (fst (finalize wallet after_settle a)) = [TxFinalize a] →
  send e1 wallet (TxFinalize a) = Confirmed r2 e2 →
  db_markets (loadMarkets (markets_file w)) !! id = Some m →
  m_market_address m = Some a →
  ∃ m', db_markets (loadMarkets (markets_file after_finalize)) !! id = Some m'
        ∧ m_status m' = "finalized"
        ∧ m_settled_tx m' = Some (r_hash r1)
        ∧ m_finalized_tx m' = Some (r_hash r2)
        ∧ same_but_sync m m'.
Proof.
  cbv zeta. intros Hs1 Htx1 Hs2 Htx2 Hm Ha.
  destruct (confirmed_settle_overwrites_status wallet w a o r1 e1 id m Hs1 Htx1 Hm Ha)
    as [Hm1 _].
  assert (env (snd (settle wallet w a o)) = e1) as He1.
  { destruct (settle_ends wallet w a o)
      as [evs Hs _ _|evs msg e' _ _ _ _ Hfail _ _ _|evs r e' _ _ _ _ Htx _ _
         |evs bad _ _ _ _ Hs _ _];
      cbn [fst snd] in *; [congruence|by rewrite Htx1 in Hfail| |congruence].
    rewrite Htx1 in Htx. by injection Htx as _ ->. }
  rewrite <- He1 in Htx2.
  assert (m_market_address (mark_settling a (r_hash r1) m) = Some a) as Ha1.
  { destruct (mark_settling_sync a (r_hash r1) m) as ((_&_&_&_&_&_&->) & _). done. }
  destruct (confirmed_finalize_overwrites_status wallet _ a r2 e2 id _ Hs2 Htx2 Hm1 Ha1)
    as [Hm2 Hst].
  destruct (mark_settling_sync a (r_hash r1) m) as (Hsync1 & _ & _).
  destruct (mark_settling_hit a (r_hash r1) m Ha) as [_ Hh1].
  destruct (mark_finalized_sync a (r_hash r2) (mark_settling a (r_hash r1) m))
    as (Hsync2 & Hkeep & _).
  destruct (mark_finalized_hit a (r_hash r2) _ Ha1) as [_ Hh2].
  eexists. split; [exact Hm2|]. split; [done|].
  split; [by rewrite Hkeep|]. split; [done|].
  by eapply same_but_sync_trans.
Qed.

End SettlerRegistry.

(** [stateStr] names the six contract states and calls every other number
    ["UNKNOWN"]. *)
Theorem stateStr_known_range (state : Z) :
  (stateStr state = "UNKNOWN" ↔ (state < 0 ∨ 5 < state)%Z)
  ∧ ((0 ≤ state ≤ 5)%Z → js_index MARKET_STATES state = Some (stateStr state)).
Proof.
  unfold stateStr, js_index, MARKET_STATES.
  destruct (state <? 0)%Z eqn:Hneg.
  - apply Z.ltb_lt in Hneg. split; [split; [by left|done]|lia].
  - apply Z.ltb_ge in Hneg.
    destruct (Z.to_nat state) as [|[|[|[|[|[|k]]]]]] eqn:Hn; cbn.
    7: { split; [split; [intros _; right; lia|done]|lia]. }
    all: split; [split; [discriminate|lia]|done].
Qed.

Module SettlerMoreExamples.
Import Sim Scenario MoreWorlds.

Lemma read_failure_sends_nothing_witness :
  call_views (env live) other_market = inl "could not decode result data"
  ∧ sent (fst (settler_main wallet0 live (CmdSettle other_market 1))) = []
  ∧ snd (settler_main wallet0 live (CmdSettle other_market 1)) = live.
Proof.
  split; [reflexivity|].
  apply (read_failure_sends_nothing wallet0 live (CmdSettle other_market 1)).
  left. by eexists.
Defined.

Lemma deadline_out_of_range_sends_nothing_witness :
  call_views (env far_deadline) market0 = inr far_view
  ∧ sent (fst (settler_main wallet0 far_deadline (CmdSettle market0 1))) = []
  ∧ snd (settler_main wallet0 far_deadline (CmdSettle market0 1)) = far_deadline.
Proof.
  split; [reflexivity|].
  apply (deadline_out_of_range_sends_nothing wallet0 far_deadline
           (CmdSettle market0 1) far_view); [reflexivity|reflexivity].
Defined.

(** The status the script prints for that market. *)
Example status_of_far_deadline :
  getMarketStatus wallet0 (env far_deadline) market0
  = StatusError market0 "Invalid time value".
Proof. reflexivity. Qed.

(** An outcome that is no [uint8] is refused while the call is encoded:
    the run reports a failed transaction and has sent none. *)
Example settle_outcome_out_of_range :
  settle wallet0 live market0 300
  = ([Out (LogSettling market0); Out (LogOutcome 300 None);
      Out (LogCallingSettle 300 1771700000);
      Out (ErrTxFailed (encoding_message (OutOfRange "outcome" 300)))], live)
  ∧ sent (fst (settle wallet0 live market0 (-1))) = []
  ∧ sent (fst (settle wallet0 live market0 256)) = []
  ∧ sent (fst (settle wallet0 live market0 255)) = [TxSettle market0 255 1771700000].
Proof. repeat split; reflexivity. Qed.

(** Settling one market leaves the record of the other as it was. *)
Example settle_leaves_other_record :
  db_markets (loadMarkets (markets_file (snd (settle wallet0 two_records market0 1))))
    !! "market_def456"
  = Some other_record.
Proof. vm_compute. reflexivity. Qed.

Lemma settle_then_finalize_record_witness :
  let after_settle := snd (settle wallet0 live market0 1) in
  let after_finalize := snd (finalize wallet0 after_settle market0) in
  ∃ m', db_markets (loadMarkets (markets_file after_finalize)) !! "market_abc123"
        = Some m'
        ∧ m_status m' = "finalized"
        ∧ m_settled_tx m' = Some "0xabc"
        ∧ m_finalized_tx m' = Some "0xabc"
        ∧ same_but_sync resolved0 m'.
Proof.
  cbv zeta.
  apply (settle_then_finalize_record wallet0 live market0 1
           (receipt None) (receipt None)
           (env (snd (settle wallet0 live market0 1)))
           (env (snd (finalize wallet0 (snd (settle wallet0 live market0 1)) market0)))
           "market_abc123" resolved0);
    vm_compute; reflexivity.
Defined.

End SettlerMoreExamples.

(** ** The market creator: refusals, order of transactions, files *)

Section CreatorMore.
Context {Env : Type} `{External Env}.
Variable wallet : address.

(** X6.  [create] gives up without a transaction and without touching the
    world when the market id is unknown, when the deadline in whole seconds
    is not later than the clock, when the balance read throws, or when the
    balance is below 693 USDC (693000000 units). *)
Theorem create_refuses_untouched (w : World Env) (marketId : string) :
  db_markets (loadMarkets (markets_file w)) !! marketId = None
  ∨ (∃ market d, db_markets (loadMarkets (markets_file w)) !! marketId = Some market
                 ∧ deadline_seconds market = Some d
                 ∧ (d ≤ env_now (env w) / 1000)%Z)
  ∨ (∃ msg, call_balanceOf (env w) MockUSDC wallet = inl msg)
  ∨ (∃ balance, call_balanceOf (env w) MockUSDC wallet = inr balance
                ∧ (balance < 693000000)%Z) →
  sent (fst (create wallet w marketId)) = [] ∧ snd (create wallet w marketId) = w.
Proof.
  intros Hcase. unfold create.
  destruct (db_markets _ !! marketId) as [market|] eqn:Hm; [|done].
  destruct (mappings _ !! marketId) as [mp|]; [done|].
  destruct (deadline_passed _ _) eqn:Hd; [done|].
  destruct (call_balanceOf _ _ _) as [msg|balance] eqn:Hb; [done|].
  destruct (balance <? depositUsdc)%Z eqn:Hlt; [done|].
  exfalso. apply Z.ltb_ge in Hlt. change depositUsdc with 693000000%Z in Hlt.
  destruct Hcase as [?|[(market' & d & [= <-] & Hds & Hle)|[[msg ?]|(b & [= <-] & ?)]]];
    [done| |done|lia].
  rewrite Hds in Hd. cbn in Hd. apply Z.leb_gt in Hd. lia.
Qed.

(** X7.  [create] sends nothing, or the approval alone, or the approval, once
    confirmed, followed by one [createMarket] on the launchpad.  The
    creation carries the wallet as adjudicator, the protocol configuration
    as guardian, a liquidity of 1000 (18 decimals), no agent id, the
    question prefixed with [@SoothSayer], a start one minute after the
    clock reading and the market's deadline; the deadline is later than
    the clock reading and need not be later than the start. *)
Theorem create_sends_in_order (w : World Env) (marketId : string) :
  sent (fst (create wallet w marketId)) = []
  ∨ sent (fst (create wallet w marketId)) = [TxApprove MockUSDC LaunchpadEngine MaxUint256]
  ∨ ∃ market r e1 d,
      db_markets (loadMarkets (markets_file w)) !! marketId = Some market
      ∧ send (env w) wallet (TxApprove MockUSDC LaunchpadEngine MaxUint256) = Confirmed r e1
      ∧ deadline_seconds market = Some d
      ∧ (env_now (env w) / 1000 < d)%Z
      ∧ sent (fst (create wallet w marketId))
        = [TxApprove MockUSDC LaunchpadEngine MaxUint256;
           TxCreateMarket LaunchpadEngine
             {| ca_question := "@SoothSayer " +:+ m_question market;
                ca_startTime := (env_now (env w) / 1000 + 60)%Z;
                ca_deadline := d;
                ca_adjudicator := wallet;
                ca_guardian := ProtocolConfig;
                ca_initialLiquidity := 1000000000000000000000;
                ca_agentId := 0;
                ca_minValidators := 0 |}].
Proof.
  unfold create.
  destruct (db_markets _ !! marketId) as [market|] eqn:Hm; [|by left].
  destruct (mappings _ !! marketId) as [mp|]; [by left|].
  destruct (deadline_passed _ _) eqn:Hd; [by left|].
  destruct (call_balanceOf _ _ _) as [msg|balance]; [by left|].
  destruct (balance <? depositUsdc)%Z; [by left|].
  destruct (send (env w) wallet _) as [msg e1|h msg e1|r1 e1] eqn:Ha;
    [by right; left..|].
  destruct (deadline_seconds market) as [d|] eqn:Hds; [|by right; left].
  cbn in Hd. apply Z.leb_gt in Hd.
  destruct (unencodable _) as [bad|]; [by right; left|].
  right; right. exists market, r1, e1, d.
  repeat (split; [done|]).
  destruct (send e1 wallet _) as [msg e2|h msg e2|r2 e2]; [done..|].
  by destruct (r_created r2).
Qed.

(** X8.  [create] never writes the markets file.  Of the mappings it changes
    at most the entry of its market id: every other entry and the
    [onchain_only] table load as before, and the file itself is untouched
    unless the run reached its last line. *)
Theorem create_keeps_files (w : World Env) (marketId other : string) :
  let after := snd (create wallet w marketId) in
  markets_file after = markets_file w
  ∧ onchain_only (loadMappings (mappings_file after))
    = onchain_only (loadMappings (mappings_file w))
  ∧ (other ≠ marketId →
     mappings (loadMappings (mappings_file after)) !! other
     = mappings (loadMappings (mappings_file w)) !! other)
  ∧ (mapping_saved (fst (create wallet w marketId)) = false →
     mappings_file after = mappings_file w).
Proof.
  cbv zeta.
  destruct (create_ends wallet w marketId)
    as [evs _ _|evs market e' _ _ _|evs market mp e' _ _ Hsaved]; cbn [fst snd];
    [done..|].
  cbn. repeat split; [|by rewrite Hsaved].
  intros Hne. by rewrite lookup_insert_ne.
Qed.

(** X9.  The mapping a run saves is the one the next run reads: it holds the
    market id, the post id of the market, the chain, the prefixed question,
    status ["live"] and the address the run printed as created, and the
    next [create] for that id only prints that address as already
    synced. *)
Theorem saved_mapping_is_read_back (w : World Env) (marketId : string) :
  mapping_saved (fst (create wallet w marketId)) = true →
  ∃ market mp,
    db_markets (loadMarkets (markets_file w)) !! marketId = Some market
    ∧ mappings (loadMappings (mappings_file (snd (create wallet w marketId))))
        !! marketId = Some mp
    ∧ mp_moltbook_id mp = marketId
    ∧ mp_moltbook_post_id mp = m_moltbook_post_id market
    ∧ mp_chain mp = "monad-testnet" ∧ mp_chain_id mp = 10143%Z
    ∧ mp_status mp = "live"
    ∧ mp_question mp = "@SoothSayer " +:+ m_question market
    ∧ Out (LogMarketCreated (mp_market_address mp)) ∈ fst (create wallet w marketId)
    ∧ create wallet (snd (create wallet w marketId)) marketId
      = ([Out (LogAlreadySynced (mp_market_address mp))],
         snd (create wallet w marketId)).
Proof.
  unfold create at 1.
  destruct (db_markets _ !! marketId) as [market|] eqn:Hm; [|done].
  destruct (mappings _ !! marketId) as [mp0|] eqn:Hmp; [done|].
  destruct (deadline_passed _ _) eqn:Hd; [done|].
  destruct (call_balanceOf _ _ _) as [msg|balance] eqn:Hb; [done|].
  destruct (balance <? depositUsdc)%Z eqn:Hlt; [done|].
  destruct (send (env w) wallet _) as [msg e1|h msg e1|r1 e1] eqn:Ha; [done..|].
  destruct (deadline_seconds market) as [d|] eqn:Hds; [|done].
  destruct (unencodable _) as [bad|] eqn:Henc; [done|].
  destruct (send e1 wallet _) as [msg e2|h msg e2|r2 e2] eqn:Hc; [done..|].
  destruct (r_created r2) as [marketAddress|] eqn:Hr; [|done].
  intros _. unfold create. rewrite Hm, Hmp, Hds, Hd, Hb, Hlt, Ha, Henc, Hc, Hr.
  cbn [fst snd saveMappings with_env markets_file mappings_file loadMappings
       set_mapping mappings].
  rewrite Hm, lookup_insert_eq.
  eexists market, _. repeat (split; [done|]). split; [|done].
  cbn. repeat (apply elem_of_cons; first [by left|right]).
Qed.

(** X10.  A market whose deadline does not parse as a date passes the deadline
    check.  If the balance suffices and the approval is confirmed, the
    wallet has granted the unlimited allowance, the creation throws before
    it is submitted, and no mapping is written. *)
Theorem unparseable_deadline_approves_only
    (w : World Env) (marketId : string) (market : Market)
    (balance : Z) (r : Receipt) (e1 : Env) :
  db_markets (loadMarkets (markets_file w)) !! marketId = Some market →
  mappings (loadMappings (mappings_file w)) !! marketId = None →
  m_deadline market = None →
  call_balanceOf (env w) MockUSDC wallet = inr balance →
  (693000000 ≤ balance)%Z →
  send (env w) wallet (TxApprove MockUSDC LaunchpadEngine MaxUint256) = Confirmed r e1 →
  sent (fst (create wallet w marketId)) = [TxApprove MockUSDC LaunchpadEngine MaxUint256]
  ∧ (∃ msg, last (fst (create wallet w marketId)) = Some (Out (Uncaught msg)))
  ∧ mappings_file (snd (create wallet w marketId)) = mappings_file w.
Proof.
  intros Hm Hmp Hd Hb Hle Ha. unfold create, deadline_seconds.
  rewrite Hm, Hmp, Hd, Hb, Ha. cbn [fmap option_fmap option_map deadline_passed].
  change depositUsdc with 693000000%Z.
  rewrite (proj2 (Z.ltb_ge _ _) Hle). cbn. split; [done|]. split; [|done].
  by eexists.
Qed.

End CreatorMore.

Module CreatorMoreExamples.
Import Sim Scenario MoreWorlds.

Lemma create_refuses_untouched_witness :
  call_balanceOf (env short_of_funds) MockUSDC wallet0 = inr 692999999%Z
  ∧ sent (fst (create wallet0 short_of_funds "market_abc123")) = []
  ∧ snd (create wallet0 short_of_funds "market_abc123") = short_of_funds.
Proof.
  split; [reflexivity|].
  apply (create_refuses_untouched wallet0 short_of_funds "market_abc123").
  right; right; right. exists 692999999%Z. split; [reflexivity|reflexivity].
Defined.

Lemma saved_mapping_is_read_back_witness :
  ∃ market mp,
    db_markets (loadMarkets (markets_file before_graduation)) !! "market_abc123"
    = Some market
    ∧ mappings (loadMappings (mappings_file
                  (snd (create wallet0 before_graduation "market_abc123"))))
        !! "market_abc123" = Some mp
    ∧ mp_moltbook_id mp = "market_abc123"
    ∧ mp_moltbook_post_id mp = m_moltbook_post_id market
    ∧ mp_chain mp = "monad-testnet" ∧ mp_chain_id mp = 10143%Z
    ∧ mp_status mp = "live"
    ∧ mp_question mp = "@SoothSayer " +:+ m_question market
    ∧ Out (LogMarketCreated (mp_market_address mp))
        ∈ fst (create wallet0 before_graduation "market_abc123")
    ∧ create wallet0 (snd (create wallet0 before_graduation "market_abc123"))
        "market_abc123"
      = ([Out (LogAlreadySynced (mp_market_address mp))],
         snd (create wallet0 before_graduation "market_abc123")).
Proof.
  apply (saved_mapping_is_read_back wallet0 before_graduation "market_abc123").
  vm_compute. reflexivity.
Defined.

Lemma unparseable_deadline_approves_only_witness :
  sent (fst (create wallet0 undated "market_abc123"))
  = [TxApprove MockUSDC LaunchpadEngine MaxUint256]
  ∧ (∃ msg, last (fst (create wallet0 undated "market_abc123"))
            = Some (Out (Uncaught msg)))
  ∧ mappings_file (snd (create wallet0 undated "market_abc123"))
    = mappings_file undated.
Proof.
  apply (unparseable_deadline_approves_only wallet0 undated "market_abc123"
           (record0 "open" None (Some "coingecko:bitcoin") [] None)
           1000000000%Z (receipt None) (env undated));
    vm_compute; try reflexivity; discriminate.
Defined.

End CreatorMoreExamples.

(** ** The parser: exceptions, text before the first tag, kinds of block *)

Lemma parse_question_document (raw : str) :
  parse_question raw = parse_document (splitlines (strip raw)).
Proof. reflexivity. Qed.

Lemma save_line_nonempty (pairs : gmap str str) (line : str) :
  save_line pairs line ≠ ∅.
Proof. unfold save_line. destruct (split_colon line) as [[k v]|]; apply insert_non_empty. Qed.

Lemma foldl_save_line_nonempty (content : list str) (pairs : gmap str str) :
  pairs ≠ ∅ ∨ content ≠ [] → foldl save_line pairs content ≠ ∅.
Proof.
  revert pairs. induction content as [|line rest IH]; intros pairs Hne; cbn.
  - by destruct Hne.
  - apply IH. left. apply save_line_nonempty.
Qed.

(** The value [_save_tag] stores, as the closing of a block needs it. *)
Lemma save_tag_value (res : gmap str TagValue) (tag c0 : str) (content : list str) :
  _save_tag res tag (c0 :: content)
  = inr (<[tag := if single_plain (c0 :: content) then Scalar c0
                  else Block (EStr <$> foldl save_line ∅ (c0 :: content))]> res).
Proof.
  unfold _save_tag. cbn [first_line].
  destruct (single_plain _); [done|].
  destruct (decide _) as [Hempty|]; [|done].
  exfalso. revert Hempty. apply foldl_save_line_nonempty. by right.
Qed.

(** X11.  [_save_tag] on an empty content raises at [content[0]]; on any other
    content it stores the single line itself when that line has no colon,
    and otherwise the dictionary of the lines: the fallback to the first
    line for an empty dictionary is never taken. *)
Theorem save_tag_stores (res : gmap str TagValue) (tag c0 : str) (content : list str) :
  _save_tag res tag [] = inl IndexError
  ∧ _save_tag res tag (c0 :: content)
    = inr (<[tag := if single_plain (c0 :: content) then Scalar c0
                    else Block (EStr <$> foldl save_line ∅ (c0 :: content))]> res).
Proof.
  split; [done|]. unfold _save_tag. cbn [first_line].
  destruct (single_plain _); [done|].
  destruct (decide _) as [Hempty|]; [|done].
  exfalso. revert Hempty. apply foldl_save_line_nonempty. by right.
Qed.

(** The closing of a block stores under a tag that has a name. *)
Lemma flush_stores_open (st : ParseState) :
  flush st = inr (result st)
  ∨ ∃ tag v, tag_open (current_tag st) = Some tag
             ∧ (v = match current_content st with
                    | [line] => if bool_decide (split_colon line = None)
                                then Scalar line
                                else Block (EStr <$> foldl save_line ∅ [line])
                    | content => Block (EStr <$> foldl save_line ∅ content)
                    end)
             ∧ flush st = inr (<[tag := v]> (result st)).
Proof.
  unfold flush. destruct (tag_open _) as [tag|] eqn:Ht; [|by left].
  destruct (current_content st) as [|c0 content]; [by left|].
  right. rewrite (save_tag_value (result st) tag c0 content).
  eexists tag, _. split; [done|]. split; [|done].
  cbn [single_plain]. by destruct content.
Qed.

Lemma parse_line_no_IndexError (st : ParseState) (line : str) :
  parse_line st line ≠ inl IndexError.
Proof.
  unfold parse_line.
  destruct (startswith [SECTION_SIGN; SECTION_SIGN] line) eqn:H2.
  - destruct (split_once_tag_line line (startswith_two _ H2))
      as [part0 [->|[part1 ->]]]; [done|].
    destruct (tag_open _); [|done]. by destruct (result st !! _) as [[?|?]|].
  - destruct (startswith [SECTION_SIGN] line) eqn:H1; [|done].
    destruct (flush_stores st) as [->|(tag & v & _ & ->)];
      by destruct (split_once_tag_line line H1) as [part0 [->|[part1 ->]]].
Qed.

Lemma parse_lines_no_IndexError (lines : list str) (st : ParseState) :
  parse_lines st lines ≠ inl IndexError.
Proof.
  revert st. induction lines as [|line rest IH]; intros st; cbn; [done|].
  destruct (parse_line st line) as [e|st'] eqn:Hl; [|apply IH].
  intros [= ->]. by apply parse_line_no_IndexError in Hl.
Qed.

(** X12.  The one exception [parse_question] can raise is the [TypeError] of an
    item assignment on a string, and it raises it only on a text that
    opens some tag twice. *)
Theorem parse_question_raises_only (raw : str) (e : PyError) :
  parse_question raw = inl e →
  e = TypeError ∧ ¬ NoDup (opened_tags raw).
Proof.
  unfold parse_question, opened_tags. intros Hraise. split.
  - destruct e; [done|]. exfalso.
    destruct (parse_lines initial _) as [e'|st] eqn:Hl.
    + injection Hraise as ->. by apply parse_lines_no_IndexError in Hl.
    + destruct (flush_stores st) as [Hf|(tag & v & _ & Hf)]; congruence.
  - intros Hnd.
    destruct (parse_lines_fresh (splitlines (strip raw)) initial) as [st Hst].
    { split; [|split]; [|done..]. intros k s Hk. cbn in Hk.
      by rewrite lookup_empty in Hk. }
    rewrite Hst in Hraise.
    destruct (flush_stores st) as [Hf|(tag & v & _ & Hf)]; congruence.
Qed.

Lemma parse_line_same_but_content (st st' : ParseState) (line : str) :
  same_but_content st st' →
  match parse_line st line, parse_line st' line with
  | inl e, inl e' => e = e'
  | inr s, inr s' => s = s' ∨ same_but_content s s'
  | _, _ => False
  end.
Proof.
  intros (Hres & Htag & Hopen). unfold parse_line, flush.
  rewrite <- Htag, Hopen, <- Hres.
  destruct (startswith [SECTION_SIGN; SECTION_SIGN] line).
  - destruct (split_once line) as [|part0 [|part1 tl]]; [done|by right..].
  - destruct (startswith [SECTION_SIGN] line).
    + destruct (split_once line) as [|part0 [|part1 tl]]; [done|by left..].
    + right. by split.
Qed.

Lemma parse_lines_same_but_content (lines : list str) (st st' : ParseState) :
  same_but_content st st' →
  closing (parse_lines st lines) = closing (parse_lines st' lines).
Proof.
  revert st st'. induction lines as [|line rest IH]; intros st st' Hsim; cbn.
  - destruct Hsim as (Hres & Htag & Hopen). unfold flush.
    by rewrite <- Htag, Hopen, Hres.
  - pose proof (parse_line_same_but_content st st' line Hsim) as Hstep.
    destruct (parse_line st line) as [e|s], (parse_line st' line) as [e'|s'];
      try done; [by subst|].
    destruct Hstep as [->|Hsim']; [done|by apply IH].
Qed.

Lemma parse_lines_app (l1 l2 : list str) (st : ParseState) :
  parse_lines st (l1 ++ l2)
  = match parse_lines st l1 with
    | inl e => inl e
    | inr st' => parse_lines st' l2
    end.
Proof.
  revert st. induction l1 as [|line rest IH]; intros st; cbn; [done|].
  destruct (parse_line st line); [done|apply IH].
Qed.

Lemma parse_lines_before_first_tag (pre : list str) (st : ParseState) :
  same_but_content st initial →
  Forall (λ line, opens line = None) pre →
  ∃ st', parse_lines st pre = inr st' ∧ same_but_content st' initial.
Proof.
  revert st. induction pre as [|line rest IH]; intros st Hsim Hpre; cbn.
  - by exists st.
  - apply Forall_cons in Hpre as [Hline Hrest].
    assert (∃ st1, parse_line st line = inr st1 ∧ same_but_content st1 initial)
      as (st1 & -> & Hsim1); [|by apply IH].
    destruct Hsim as (Hres & Htag & Hopen).
    unfold parse_line, opens in *. rewrite Hopen.
    destruct (startswith [SECTION_SIGN; SECTION_SIGN] line) eqn:H2.
    + destruct (split_once_tag_line line (startswith_two _ H2))
        as [part0 [->|[part1 ->]]]; by exists st.
    + destruct (startswith [SECTION_SIGN] line) eqn:H1.
      * by destruct (split_once_tag_line line H1) as [part0 [Hs|[part1 Hs]]];
          rewrite Hs in Hline.
      * eexists. split; [done|]. by split.
Qed.

(** X13.  Lines before the first line that opens a block, text and sub-tags
    alike, leave no trace in the result. *)
Theorem text_before_first_tag_is_dropped (pre rest : list str) :
  Forall (λ line, opens line = None) pre →
  parse_document (pre ++ rest) = parse_document rest.
Proof.
  intros Hpre. unfold parse_document. rewrite parse_lines_app.
  destruct (parse_lines_before_first_tag pre initial) as (st & -> & Hsim);
    [by split|done|].
  by apply (parse_lines_same_but_content rest st initial).
Qed.

Lemma tag_open_nonempty (c : option str) (t : str) : tag_open c = Some t → t ≠ [].
Proof. destruct c as [[|x r]|]; cbn; congruence. Qed.

Lemma parse_line_nameless (st st' : ParseState) (line : str) :
  parse_line st line = inr st' →
  result st !! [] = None → result st' !! [] = None.
Proof.
  unfold parse_line. intros Hl Hno.
  destruct (startswith [SECTION_SIGN; SECTION_SIGN] line).
  - destruct (split_once line) as [|part0 [|part1 tl]]; [done|by injection Hl as <-|].
    destruct (tag_open _) as [tag|] eqn:Ht; [|by injection Hl as <-].
    apply tag_open_nonempty in Ht.
    destruct (result st !! tag) as [[?|?]|]; [done|..];
      injection Hl as <-; cbn; by rewrite lookup_insert_ne.
  - destruct (startswith [SECTION_SIGN] line); [|by injection Hl as <-].
    destruct (flush_stores_open st) as [Hf|(tag & v & Ht & _ & Hf)]; rewrite Hf in Hl;
      (destruct (split_once line) as [|part0 [|part1 tl]]; [done|..]);
      injection Hl as <-; cbn; try done;
      apply tag_open_nonempty in Ht; by rewrite lookup_insert_ne.
Qed.

Lemma parse_lines_nameless (lines : list str) (st st' : ParseState) :
  parse_lines st lines = inr st' →
  result st !! [] = None → result st' !! [] = None.
Proof.
  revert st. induction lines as [|line rest IH]; intros st; cbn.
  - by intros [= <-].
  - destruct (parse_line st line) as [e|st1] eqn:Hl; [done|].
    intros Hrest Hno. eapply IH; [done|]. by eapply parse_line_nameless.
Qed.

(** X14.  A marker without a name stores nothing: the result never holds the
    empty key. *)
Theorem nameless_tag_is_dropped (raw : str) (parsed : gmap str TagValue) :
  parse_question raw = inr parsed → parsed !! [] = None.
Proof.
  unfold parse_question.
  destruct (parse_lines initial _) as [e|st] eqn:Hl; [done|].
  pose proof (parse_lines_nameless _ _ _ Hl (lookup_empty _)) as Hno.
  destruct (flush_stores_open st) as [Hf|(tag & v & Ht & _ & Hf)]; rewrite Hf;
    intros [= <-]; [done|].
  apply tag_open_nonempty in Ht. by rewrite lookup_insert_ne.
Qed.

Lemma strings_only_fmap (pairs : gmap str str) : strings_only (EStr <$> pairs).
Proof.
  intros k e. rewrite lookup_fmap. destruct (pairs !! k) as [s|]; [|done].
  intros [= <-]. by exists s.
Qed.

Lemma subtags_only_insert (d : gmap str Entry) (key : str) (pairs : gmap str str) :
  subtags_only d → subtags_only (<[key := EPairs pairs]> d).
Proof.
  intros Hd k e. destruct (decide (key = k)) as [->|Hne].
  - rewrite lookup_insert_eq. intros [= <-]. by exists pairs.
  - rewrite lookup_insert_ne by done. apply Hd.
Qed.

Lemma subtags_only_empty : subtags_only ∅.
Proof. intros k e. by rewrite lookup_empty. Qed.

(** What the closing of a block stores is a string or a dictionary of
    strings. *)
Lemma flush_stores_strings (st : ParseState) :
  flush st = inr (result st)
  ∨ ∃ tag v, current_tag st = Some tag
             ∧ (∀ d, v = Block d → strings_only d)
             ∧ flush st = inr (<[tag := v]> (result st)).
Proof.
  destruct (flush_stores_open st) as [Hf|(tag & v & Ht & Hv & Hf)]; [by left|].
  right. exists tag, v. split; [by apply tag_open_Some|]. split; [|done].
  intros d ->. destruct (current_content st) as [|c0 [|c1 content]];
    [injection Hv as ->|destruct (bool_decide _); [done|injection Hv as ->]
    |injection Hv as ->]; apply strings_only_fmap.
Qed.

Lemma parse_line_tidy (st : ParseState) (line : str) (rest : list str) :
  tidy st (omap opens (line :: rest)) →
  ∃ st', parse_line st line = inr st' ∧ tidy st' (omap opens rest).
Proof.
  intros Hst. unfold parse_line. rewrite opened_cons in Hst.
  destruct (startswith [SECTION_SIGN; SECTION_SIGN] line) eqn:H2.
  - rewrite (opens_subtag _ H2) in Hst. cbn [from_option] in Hst.
    destruct (split_once_tag_line line (startswith_two _ H2))
      as [part0 [->|[part1 ->]]]; [by exists st|].
    destruct (tag_open (current_tag st)) as [tag|] eqn:Ht; [|by exists st].
    apply tag_open_Some in Ht.
    destruct Hst as (Hkeys & Hcur & Hnd & Hopen & Hkind).
    assert (∀ d, subtags_only d →
              tidy {| result := <[tag := Block d]> (result st);
                      current_tag := current_tag st;
                      current_content := current_content st |}
                   (omap opens rest)) as Hnew.
    { intros d Hd. repeat split; cbn; [|done..| |].
      - intros k Hk. destruct (decide (tag = k)) as [<-|Hne]; [by apply Hcur|].
        rewrite lookup_insert_ne in Hk by done. by apply Hkeys.
      - intros t v Ht' Hv. destruct (decide (tag = t)) as [<-|Hne].
        + rewrite lookup_insert_eq in Hv. injection Hv as <-. by exists d.
        + congruence.
      - intros k d' Hk. destruct (decide (tag = k)) as [<-|Hne].
        + rewrite lookup_insert_eq in Hk. injection Hk as <-. by right.
        + rewrite lookup_insert_ne in Hk by done. by eapply Hkind. }
    destruct (result st !! tag) as [[s|d]|] eqn:Hr.
    + by destruct (Hopen _ _ Ht Hr) as (d & ? & _).
    + eexists. split; [done|]. apply Hnew. apply subtags_only_insert.
      destruct (Hopen _ _ Ht Hr) as (d' & [= <-] & Hd). done.
    + eexists. split; [done|]. apply Hnew.
      change ({[ ?k := ?v ]}) with (<[k := v]> (∅ : gmap str Entry)).
      apply subtags_only_insert, subtags_only_empty.
  - destruct (startswith [SECTION_SIGN] line) eqn:H1.
    + assert (∃ part0 tl, split_once line = part0 :: tl
                          ∧ (tl = [] ∨ ∃ part1, tl = [part1])) as (part0 & tl & Hsp & Htl).
      { destruct (split_once_tag_line line H1) as [part0 [->|[part1 ->]]]; eauto 6. }
      rewrite (opens_tag _ _ _ H2 H1 Hsp) in Hst. cbn [from_option] in Hst.
      rewrite Hsp.
      destruct Hst as (Hkeys & Hcur & [Hnew Hnd]%NoDup_cons & Hopen & Hkind).
      assert (∃ saved, flush st = inr saved
                ∧ (∀ k, is_Some (saved !! k) → k ∉ drop 1 part0 :: omap opens rest)
                ∧ (∀ k d, saved !! k = Some (Block d) →
                          strings_only d ∨ subtags_only d)) as (saved & Hf & Hk & Hb).
      { destruct (flush_stores_strings st) as [Hf|(tag & v & Htag & Hv & Hf)].
        - by exists (result st).
        - eexists. split; [done|]. split.
          + intros k Hin. destruct (decide (tag = k)) as [<-|Hne]; [by apply Hcur|].
            rewrite lookup_insert_ne in Hin by done. by apply Hkeys.
          + intros k d Hin. destruct (decide (tag = k)) as [<-|Hne].
            * rewrite lookup_insert_eq in Hin. injection Hin as ->. left. by apply Hv.
            * rewrite lookup_insert_ne in Hin by done. by eapply Hkind. }
      rewrite Hf.
      assert (∀ content,
                tidy {| result := saved; current_tag := Some (drop 1 part0);
                        current_content := content |} (omap opens rest)) as Htidy.
      { intros content. repeat split; cbn; [| |done| |done].
        - intros k Hin. specialize (Hk _ Hin). by apply not_elem_of_cons in Hk as [_ ?].
        - by intros t [= <-].
        - intros t v [= <-] Hv.
          assert (is_Some (saved !! drop 1 part0)) as Hin by done.
          specialize (Hk _ Hin). by apply not_elem_of_cons in Hk as [? _]. }
      destruct Htl as [->|[part1 ->]]; eexists; by split.
    + rewrite (opens_content _ H1) in Hst. cbn [from_option] in Hst.
      eexists. split; [done|]. done.
Qed.

Lemma parse_lines_tidy (lines : list str) (st : ParseState) :
  tidy st (omap opens lines) →
  ∃ st', parse_lines st lines = inr st' ∧ tidy st' [].
Proof.
  revert st. induction lines as [|line rest IH]; intros st Hst; cbn [parse_lines].
  - by exists st.
  - destruct (parse_line_tidy st line rest Hst) as (st1 & -> & Hst1). by apply IH.
Qed.

(** X15.  On a text that opens no tag twice every dictionary of the result is
    of one kind: it holds the key/value lines of its block, as strings, or
    the pairs of its sub-tags, never both. *)
Theorem blocks_are_of_one_kind
    (raw : str) (parsed : gmap str TagValue) (tag : str) (d : gmap str Entry) :
  NoDup (opened_tags raw) →
  parse_question raw = inr parsed →
  parsed !! tag = Some (Block d) →
  strings_only d ∨ subtags_only d.
Proof.
  unfold parse_question, opened_tags. intros Hnd.
  destruct (parse_lines_tidy (splitlines (strip raw)) initial) as (st & -> & Hst).
  { repeat split; cbn; [|done..| |]; intros k; rewrite ?lookup_empty;
      try done; by intros [? ?]. }
  destruct Hst as (_ & _ & _ & _ & Hkind).
  destruct (flush_stores_strings st) as [Hf|(t & v & _ & Hv & Hf)]; rewrite Hf;
    intros [= <-]; [by eapply Hkind|].
  destruct (decide (t = tag)) as [<-|Hne].
  - rewrite lookup_insert_eq. intros [= ->]. left. by apply Hv.
  - rewrite lookup_insert_ne by done. by eapply Hkind.
Qed.

Module ParserMoreExamples.
Import Texts MoreTexts.

Lemma parse_question_raises_only_witness :
  parse_question reopened = inl TypeError
  ∧ TypeError = TypeError ∧ ¬ NoDup (opened_tags reopened).
Proof.
  split; [vm_compute; reflexivity|].
  apply (parse_question_raises_only reopened TypeError).
  vm_compute. reflexivity.
Defined.

Lemma text_before_first_tag_is_dropped_witness :
  parse_document (greeting ++ minimal_lines) = parse_document minimal_lines.
Proof.
  apply (text_before_first_tag_is_dropped greeting minimal_lines).
  repeat constructor.
Defined.

Lemma nameless_tag_is_dropped_witness :
  parse_question nameless = inr {[ utf8 "event" := Scalar (utf8 "US Election 2026") ]}
  ∧ ({[ utf8 "event" := Scalar (utf8 "US Election 2026") ]} : gmap str TagValue)
      !! [] = None.
Proof.
  assert (parse_question nameless
          = inr {[ utf8 "event" := Scalar (utf8 "US Election 2026") ]}) as Hp.
  { vm_compute. reflexivity. }
  split; [exact Hp|].
  exact (nameless_tag_is_dropped nameless _ Hp).
Defined.

Lemma blocks_are_of_one_kind_witness :
  strings_only crypto_rule ∨ subtags_only crypto_rule.
Proof.
  apply (blocks_are_of_one_kind crypto crypto_parsed RULE crypto_rule).
  - apply (bool_decide_unpack _). vm_compute. exact I.
  - vm_compute. reflexivity.
  - vm_compute. reflexivity.
Defined.

(** A block without content lines keeps the pairs of its sub-tag, under
    the key [__source]. *)
Example parse_bare_block :
  parse_question bare_block
  = inr {[ RULE := Block {[ utf8 "__source" :=
                              EPairs {[ utf8 "creator" := utf8 "HypeWatcher";
                                        utf8 "origin" := utf8 "moltbook:95759b5b" ]} ]};
           utf8 "event" := Scalar (utf8 "US Election 2026") ]}.
Proof. vm_compute. reflexivity. Qed.

End ParserMoreExamples.

(** ** The no-delete guard *)

Lemma ascii_upper_letter (c d : char) :
  (65 ≤ d ≤ 90)%N → ascii_upper c = d ↔ c = d ∨ c = (d + 32)%N.
Proof.
  intros Hd. unfold ascii_upper.
  destruct (97 <=? c)%N eqn:H1; destruct (c <=? 122)%N eqn:H2; cbn;
    try apply N.leb_le in H1; try apply N.leb_le in H2;
    try apply N.leb_gt in H1; try apply N.leb_gt in H2; lia.
Qed.

Lemma upper_spells (word method : str) :
  Forall (λ d, (65 ≤ d ≤ 90)%N) word →
  upper method = word ↔ spells word method.
Proof.
  unfold upper, spells. revert word.
  induction method as [|c method IH]; intros [|d word] Hword; cbn.
  - split; [constructor|done].
  - split; [done|by intros ?%Forall2_nil_cons_inv].
  - split; [done|by intros ?%Forall2_cons_nil_inv].
  - apply Forall_cons in Hword as [Hd Hword].
    rewrite Forall2_cons, <- (IH word Hword), <- (ascii_upper_letter c d Hd).
    split; [by intros [= -> ->]|by intros [-> ->]].
Qed.

(** X16.  On an ASCII method name, where [upper] is Python's [str.upper],
    [api_request] raises exactly for the spellings of DELETE in upper and
    lower case letters, and then what follows the guard is not reached;
    every other method goes through to it with the arguments unchanged. *)
Theorem delete_is_forbidden {D K R : Type} (proceed : str → str → D → K → R)
    (method endpoint : str) (data : D) (api_key : K) :
  Forall (λ c, (c < 128)%N) method →
  (spells DELETE method →
   api_request proceed method endpoint data api_key = inl PermissionError)
  ∧ (¬ spells DELETE method →
     api_request proceed method endpoint data api_key
     = inr (proceed method endpoint data api_key)).
Proof.
  intros _. unfold api_request.
  assert (upper method = DELETE ↔ spells DELETE method) as Hiff.
  { apply upper_spells. vm_compute. repeat constructor; discriminate. }
  destruct (decide _) as [Hup|Hup]; split; try done; intros Hs.
  - by apply Hiff in Hup.
  - by apply Hiff in Hs.
Qed.

Module GuardExamples.

Lemma delete_is_forbidden_witness :
  spells DELETE (utf8 "DeLeTe")
  ∧ api_request (λ (m e : str) (_ _ : unit), (m, e))
      (utf8 "DeLeTe") (utf8 "/posts/42") () ()
    = inl PermissionError.
Proof.
  assert (spells DELETE (utf8 "DeLeTe")) as Hs.
  { vm_compute. repeat constructor; ((by left) || (by right)). }
  split; [exact Hs|].
  apply (delete_is_forbidden (λ (m e : str) (_ _ : unit), (m, e))
           (utf8 "DeLeTe") (utf8 "/posts/42") () ()); [|exact Hs].
  vm_compute. repeat constructor.
Defined.

End GuardExamples.

(** ** Scoring: the shape of the formula *)

(** X18.  Under the formula of the commit format, more confidence in what
    happened scores higher and more confidence in what did not happen
    scores lower; a confidence [c] in what happened scores as [100 - c] in
    what did not. *)
Theorem brier_rewards_confidence (c c' : Z) :
  (0 ≤ c ≤ c')%Z → (c' ≤ 100)%Z →
  (brier c 1 <= brier c' 1)%Q
  ∧ (brier c' 0 <= brier c 0)%Q
  ∧ (brier c 1 == brier (100 - c) 0)%Q.
Proof.
  intros Hc Hc'.
  unfold brier, Qle, Qeq, Qminus, Qplus, Qopp, Qpower, Qpower_positive,
    pow_pos, Qmult. cbn. repeat split; nia.
Qed.

Module ScoringExamples.

Lemma brier_bounds_witness :
  (0 <= brier 75 (if true then 1 else 0) <= 1)%Q.
Proof. apply (brier_bounds 75 true). lia. Defined.

Lemma brier_rewards_confidence_witness :
  (brier 60 1 <= brier 75 1)%Q
  ∧ (brier 75 0 <= brier 60 0)%Q
  ∧ (brier 60 1 == brier (100 - 60) 0)%Q.
Proof. apply (brier_rewards_confidence 60 75); lia. Defined.

End ScoringExamples.
